(** * Visual search server: embedding store, image embedding and top-K search

    A shallow embedding of [src/server.js]: the half-float decoder and the
    catalog loader of [init], the image pipeline of [embed] and the
    brute-force ranking of [search], over a model of the JavaScript values
    and built-ins those functions use.

    JavaScript numbers are IEEE-754 binary64 values: they are Rocq's
    primitive floats, whose operations are specified by [SpecFloat].
    A [Float32Array] rounds every stored value to binary32. *)

From Stdlib Require Import ZArith QArith Floats Lia Lqa String Ascii Strings.Byte DecimalString.
From stdpp Require Import base list sorting.

Set Warnings "-inexact-float,-abstract-large-number".
Unset Default Proof Using.

(** ** JavaScript values and built-ins *)

Module JS.

Abbreviation number := float.

Inductive value :=
| Undefined
| Str (s : string)
| Num (x : number).

Inductive exn :=
| TypeError
| RangeError
| Error (message : string).

(** Completion of a call: a value, or a thrown exception. *)
Inductive completion (A : Type) :=
| Normal (a : A)
| Throw (e : exn).
Arguments Normal {A} a.
Arguments Throw {A} e.

(** An integer-valued number (exact below 2^53). *)
Definition of_Z (z : Z) : number :=
  match z with
  | Z0 => 0%float
  | Zpos _ => of_uint63 (Uint63.of_Z z)
  | Zneg p => (- of_uint63 (Uint63.of_Z (Zpos p)))%float
  end.

Definition of_nat (n : nat) : number := of_Z (Z.of_nat n).

(** Truthiness of an integer used as a condition. *)
Definition truthy (z : Z) : bool := negb (z =? 0)%Z.

(** [2 ** n] for an integer [n]: the power of two, rounded to binary64. *)
Definition pow2 (n : Z) : number := Z.ldexp 1%float n.

(** [Math.sqrt]. *)
Definition Math_sqrt (x : number) : number := PrimFloat.sqrt x.

(** [Number.isNaN], [Number.isFinite] and the test for a zero. *)
Definition Number_isNaN (x : number) : bool :=
  match Prim2SF x with S754_nan => true | _ => false end.

Definition Number_isFinite (x : number) : bool :=
  match Prim2SF x with S754_zero _ | S754_finite _ _ _ => true | _ => false end.

Definition is_zero (x : number) : bool :=
  match Prim2SF x with S754_zero _ => true | _ => false end.

(** *** Float32Array *)

(** Rounding of a binary64 value to the nearest binary32 value (ties to
    even), the result being again a binary64 value. *)
Definition round32 (x : spec_float) : spec_float :=
  match x with
  | S754_finite s m e => binary_round 24 128 s m e
  | _ => x
  end.

Definition canon64 (x : spec_float) : spec_float :=
  match x with
  | S754_finite s m e => binary_round prec emax s m e
  | _ => x
  end.

Definition fround (x : number) : number :=
  SF2Prim (canon64 (round32 (Prim2SF x))).

Abbreviation Float32Array := (list number).

(** [new Float32Array(n)]: [n] zeros. *)
Definition f32_new (n : nat) : Float32Array := replicate n 0%float.

(** [a[i]] used as a number: [undefined] out of range, which every
    arithmetic operation turns into NaN. *)
Definition f32_get (a : Float32Array) (i : nat) : number :=
  default nan (a !! i).

(** [a[i] = v]: rounds to binary32; ignored out of range. *)
Definition f32_set (a : Float32Array) (i : nat) (v : number) : Float32Array :=
  <[i := fround v]> a.

(** *** Buffer *)

Abbreviation Buffer := (list byte).

Definition byte_val (b : byte) : Z := Z.of_N (Byte.to_N b).

(** [buf.readUInt16LE(offset)]: Node reads [buf[offset]] and
    [buf[offset + 1]] and throws a RangeError when either is undefined. *)
Definition readUInt16LE (buf : Buffer) (offset : nat) : completion Z :=
  match buf !! offset, buf !! (offset + 1) with
  | Some first, Some last => Normal (byte_val first + byte_val last * 2 ^ 8)%Z
  | _, _ => Throw RangeError
  end.

(** [buf[i]] used as a number. *)
Definition buf_get (buf : Buffer) (i : nat) : number :=
  match buf !! i with
  | Some b => of_Z (byte_val b)
  | None => nan
  end.

(** *** Array.prototype.sort

    The comparator's result is a number; NaN counts as [+0].  The
    algorithm is the one of V8, the engine of Node.js: the leading
    natural run is found (and reversed when strictly descending), then
    every remaining element is placed by binary insertion.  V8 sorts
    arrays shorter than 64 elements exactly so; on longer arrays it cuts
    runs of bounded length and merges them, which gives the same order
    whenever the comparator is consistent (a stable sort has one
    result).  With a comparator that is not (NaN results) the two orders
    can differ from 64 elements on: of such arrays only what holds of
    every permutation is stated. *)

Section Sort.
Context {A : Type} (comparefn : A -> A -> number).

Definition SortCompare (x y : A) : number :=
  let v := comparefn x y in
  if is_nan v then 0%float else v.

(** [order < 0]. *)
Definition order_neg (x y : A) : bool := (SortCompare x y <? 0)%float.

(** Extends the run that ends in [previous]; [acc] is the run so far,
    last element first. *)
Fixpoint extend_run (descending : bool) (previous : A) (l acc : list A)
  : list A * list A :=
  match l with
  | [] => (acc, [])
  | current :: l' =>
      let brk := if descending then negb (order_neg current previous)
                 else order_neg current previous in
      if brk then (acc, l)
      else extend_run descending current l' (current :: acc)
  end.

(** The leading run, in sorted order, and the elements after it. *)
Definition CountAndMakeRun (l : list A) : list A * list A :=
  match l with
  | elementHigh :: elementLow :: l' =>
      let descending := order_neg elementLow elementHigh in
      let '(acc, rest) :=
        extend_run descending elementLow l' [elementLow; elementHigh] in
      (if descending then acc else reverse acc, rest)
  | _ => (l, [])
  end.

(** Binary search of the insertion point of [pivot] in [a[left..right)]. *)
Fixpoint insertion_point (fuel : nat) (pivot : A) (a : list A)
  (left right : nat) : nat :=
  match fuel with
  | O => left
  | S fuel' =>
      if left <? right then
        let mid := left + (right - left) / 2 in
        match a !! mid with
        | Some x =>
            if order_neg pivot x
            then insertion_point fuel' pivot a left mid
            else insertion_point fuel' pivot a (mid + 1) right
        | None => left
        end
      else left
  end.

Definition insert_pivot (a : list A) (pivot : A) : list A :=
  let left := insertion_point (length a) pivot a 0 (length a) in
  take left a ++ pivot :: drop left a.

Definition BinaryInsertionSort (run rest : list A) : list A :=
  foldl insert_pivot run rest.

Definition sort (l : list A) : list A :=
  let '(run, rest) := CountAndMakeRun l in
  BinaryInsertionSort run rest.
End Sort.

(** [l.slice(0, k)] for an integer [k]; a negative [k] counts from the
    end. *)
Definition slice0 {A} (l : list A) (k : Z) : list A :=
  let len := Z.of_nat (length l) in
  let final := if (k <? 0)%Z then Z.max (len + k) 0 else Z.min k len in
  take (Z.to_nat final) l.

(** *** Number.prototype.toString and toFixed *)

Definition decimal (n : Z) : string := NilZero.string_of_uint (N.to_uint (Z.to_N n)).

(** The exact value [m * 2^e] lies in the interval of the reals that round
    to the binary64 number of mantissa [m] and exponent [e >= 0]. *)
Definition rounds_to (m : positive) (e : Z) (v : Z) : bool :=
  let x := (Zpos m * 2 ^ e)%Z in
  let up := (2 ^ (e - 1))%Z in
  let down := if (Zpos m =? 2 ^ 52)%Z then (2 ^ (e - 2))%Z else up in
  if Z.even (Zpos m) then ((x - down <=? v) && (v <=? x + up))%Z
  else ((x - down <? v) && (v <? x + up))%Z.

(** Shortest decimal significand [s] of [k] digits and decimal exponent
    [n] such that [s * 10^(n-k)] rounds to the number; [d] is the number
    of decimal digits of its exact value [x]. *)
Fixpoint shortest (fuel : nat) (m : positive) (e : Z) (x d k : Z) : Z * Z :=
  let scale := (10 ^ (d - k))%Z in
  let lo := (x / scale)%Z in
  let hi := (lo + 1)%Z in
  let ok_lo := rounds_to m e (lo * scale) in
  let ok_hi := rounds_to m e (hi * scale) in
  let pick_hi :=
    if ok_lo && ok_hi then
      match (hi * scale - x ?= x - lo * scale)%Z with
      | Lt => true
      | Gt => false
      | Eq => Z.even hi
      end
    else ok_hi in
  match fuel with
  | O => (lo, d)
  | S fuel' =>
      if ok_lo || ok_hi then
        if pick_hi then
          (if (hi =? 10 ^ k)%Z then (10 ^ (k - 1), d + 1) else (hi, d))%Z
        else (lo, d)
      else shortest fuel' m e x d (k + 1)%Z
  end.

(** Strips the trailing zeros of a significand. *)
Fixpoint strip_zeros (fuel : nat) (s : Z) : Z :=
  match fuel with
  | O => s
  | S fuel' => if (s mod 10 =? 0)%Z then strip_zeros fuel' (s / 10)%Z else s
  end.

(** [String(x)] for a finite [x] of mantissa [m] and exponent [e] with
    [x >= 1e21]: exponential notation. *)
Definition toString_large (m : positive) (e : Z) : string :=
  let x := (Zpos m * 2 ^ e)%Z in
  let d := Z.of_nat (String.length (decimal x)) in
  let '(s, n) := shortest 17 m e x d 1 in
  let digits := decimal (strip_zeros 17 s) in
  let mantissa :=
    match digits with
    | String c EmptyString => digits
    | String c rest => String c (String "." rest)
    | EmptyString => digits
    end in
  String.append mantissa (String.append "e+" (decimal (n - 1))).

(** The integer [n] for which [n / 10] is nearest to [m * 2^e], the larger
    one when two are as near. *)
Definition nearest_tenths (m : positive) (e : Z) : Z :=
  if (0 <=? e)%Z then (Zpos m * 2 ^ e * 10)%Z
  else ((20 * Zpos m + 2 ^ (- e)) / 2 ^ (1 - e))%Z.

(** [x.toFixed(1)]. *)
Definition toFixed1 (x : number) : string :=
  match Prim2SF x with
  | S754_nan => "NaN"
  | S754_infinity s => if s then "-Infinity" else "Infinity"
  | S754_zero _ => "0.0"
  | S754_finite s m e =>
      let sign := if s then "-"%string else ""%string in
      let body :=
        if (0 <=? e)%Z && (10 ^ 21 <=? Zpos m * 2 ^ e)%Z then toString_large m e
        else
          let n := nearest_tenths m e in
          String.append (decimal (n / 10)) (String.append "." (decimal (n mod 10))) in
      String.append sign body
  end.

End JS.

Export JS.

(** ** Process state

    [let session, meta, embeddings;]: the three module-level variables,
    [None] while still undefined.  Every function of the program runs in
    the monad [M] of computations that read and write them and may throw. *)

(** A tensor of onnxruntime: element type, data and dimensions. *)
Record Tensor := {
  tensor_type : string;
  tensor_data : Float32Array;
  tensor_dims : list Z
}.

(** An object with string keys, as the list of its own properties in
    enumeration order. *)
Abbreviation object A := (list (string * A)).

Definition Object_values {A} (o : object A) : list A := map snd o.

(** The loaded ONNX model: [session.run(feeds)] returns the model's named
    outputs, or throws. *)
Record InferenceSession := {
  session_run : object Tensor -> completion (object Tensor)
}.

(** A row of [vs-meta.json]: [[id, handle, title, imageUrl]]. *)
Abbreviation Row := (list value).

Record Globals := {
  session : option InferenceSession;
  meta : option (list Row);
  embeddings : option Float32Array
}.

Definition undefined_globals : Globals :=
  {| session := None; meta := None; embeddings := None |}.

Definition M (A : Type) : Type := Globals -> completion A * Globals.

Definition ret {A} (a : A) : M A := fun g => (Normal a, g).

Definition bind {A B} (m : M A) (k : A -> M B) : M B :=
  fun g =>
    match m g with
    | (Normal a, g') => k a g'
    | (Throw e, g') => (Throw e, g')
    end.

Definition throw {A} (e : exn) : M A := fun g => (Throw e, g).

Definition lift {A} (c : completion A) : M A := fun g => (c, g).

#[global] Instance M_ret : MRet M := @ret.
#[global] Instance M_bind : MBind M := fun A B k m => bind m k.

(** Reading a property of a variable that is still undefined throws a
    TypeError. *)
Definition defined {A} (o : option A) : M A :=
  match o with
  | Some a => ret a
  | None => throw TypeError
  end.

Definition get_session : M InferenceSession := fun g => defined (session g) g.
Definition get_meta : M (list Row) := fun g => defined (meta g) g.
Definition get_embeddings : M Float32Array := fun g => defined (embeddings g) g.

Definition set_session (s : InferenceSession) : M unit :=
  fun g => (Normal tt, {| session := Some s; meta := meta g; embeddings := embeddings g |}).
Definition set_meta (m : list Row) : M unit :=
  fun g => (Normal tt, {| session := session g; meta := Some m; embeddings := embeddings g |}).
Definition set_embeddings (a : Float32Array) : M unit :=
  fun g => (Normal tt, {| session := session g; meta := meta g; embeddings := Some a |}).

(** [for (let i = 0; i < n; i++) body(i)]. *)
Fixpoint for_loop (i : nat) (count : nat) (body : nat -> M unit) : M unit :=
  match count with
  | O => ret tt
  | S count' => body i ;; for_loop (S i) count' body
  end.

(** ** init: loading the catalog *)

Definition MEAN : list number := [0.48145466; 0.4578275; 0.40821073]%float.
Definition STD : list number := [0.26862954; 0.26130258; 0.27577711]%float.

(** A number read from an array of numbers; [undefined] out of range,
    which arithmetic turns into NaN. *)
Definition at_index (a : list number) (i : nat) : number := f32_get a i.

(** Lines 40-43: the value of the half-precision word [h]. *)
Definition decode_half (h : Z) : number :=
  let s := Z.shiftr (Z.land h 0x8000) 15 in
  let e := Z.shiftr (Z.land h 0x7C00) 10 in
  let m := Z.land h 0x03FF in
  if (e =? 0)%Z then
    ((if truthy s then -1 else 1) * pow2 (-14) * (of_Z m / 1024))%float
  else if (e =? 31)%Z then
    (if truthy m then nan else (if truthy s then neg_infinity else infinity))
  else
    ((if truthy s then -1 else 1) * pow2 (e - 15) * (1 + of_Z m / 1024))%float.

(** The files of the working directory, once read: the model as loaded by
    [ort.InferenceSession.create], the parsed [vs-meta.json] and the bytes
    of [vs-embeddings.bin]. *)
Record Files := {
  model_onnx : InferenceSession;
  vs_meta_json : list Row;
  vs_embeddings_bin : Buffer
}.

Definition init (files : Files) : M unit :=
  set_session (model_onnx files);;
  set_meta (vs_meta_json files);;
  let bin := vs_embeddings_bin files in
  m ← get_meta;
  set_embeddings (f32_new (length m * 512));;
  for_loop 0 (length m * 512) (fun i =>
    h ← lift (readUInt16LE bin (i * 2));
    a ← get_embeddings;
    set_embeddings (f32_set a i (decode_half h))).

(** [init().then(() => server.listen(PORT))]: the server listens only
    once [init] has returned; an exception of [init] leaves the process
    without a listening server. *)
Inductive server :=
| Listening (g : Globals)
| NotStarted (e : exn).

Definition startup (files : Files) : server :=
  match init files undefined_globals with
  | (Normal _, g) => Listening g
  | (Throw e, _) => NotStarted e
  end.

(** ** embed: from image bytes to a query vector *)

Section Embed.

(** [sharp(buf).resize(224, 224, { fit: 'cover' }).removeAlpha().raw()
    .toBuffer()]: the RGB bytes of the resized image, or an exception for
    bytes that are no image. *)
Variable sharp_raw : Buffer -> completion Buffer.

(** Lines 52-54, for an image of [npix] pixels. *)
Definition normalize_pixels (npix : nat) (data : Buffer) : Float32Array :=
  foldl (fun f i =>
    foldl (fun f c =>
      f32_set f (c * npix + i)
        ((buf_get data (i * 3 + c) / 255 - at_index MEAN c) / at_index STD c)%float)
      f (seq 0 3))
    (f32_new (3 * npix)) (seq 0 npix).

Definition pixels : nat := 224 * 224.

(** Lines 56-58: the first output of the model, divided by its norm. *)
Definition first_output (res : object Tensor) : M (list number) :=
  match Object_values res with
  | t :: _ => ret (tensor_data t)
  | [] => throw TypeError
  end.

Definition l2_norm (emb : list number) : number :=
  Math_sqrt (foldl (fun s v => s + v * v)%float 0%float emb).

Definition l2_normalize (emb : list number) : list number :=
  let norm := l2_norm emb in
  map (fun v => v / norm)%float emb.

Definition embed (buf : Buffer) : M (list number) :=
  data ← lift (sharp_raw buf);
  let f := normalize_pixels pixels data in
  s ← get_session;
  let feeds := [("pixel_values"%string,
    {| tensor_type := "float32"; tensor_data := f; tensor_dims := [1; 3; 224; 224]%Z |})] in
  res ← lift (session_run s feeds);
  emb ← first_output res;
  ret (l2_normalize emb).

End Embed.

(** ** search: ranking the catalog *)

Record RankedResult := {
  id : value;
  handle : value;
  title : value;
  img : value;
  score : value
}.

(** [row[k]]. *)
Definition field (row : Row) (k : nat) : value := default Undefined (row !! k).

(** Lines 64-65: the dot product of the query and row [i]. *)
Definition dot_product (query : list number) (emb : Float32Array) (i : nat) : number :=
  let off := i * 512 in
  foldl (fun dot j => dot + at_index query j * at_index emb (off + j))%float
    0%float (seq 0 512).

(** Lines 62-67: the score of every row. *)
Definition compute_scores (n : nat) (query : list number) : M Float32Array :=
  foldl (fun acc i =>
      scores ← acc;
      emb ← get_embeddings;
      ret (f32_set scores i (dot_product query emb i)))
    (ret (f32_new n)) (seq 0 n).

(** The comparator of line 68. *)
Definition by_score (scores : Float32Array) (a b : nat) : number :=
  (at_index scores b - at_index scores a)%float.

Definition ranked (scores : Float32Array) (topK : Z) : list nat :=
  slice0 (sort (by_score scores) (seq 0 (length scores))) topK.

Definition result (m : list Row) (scores : Float32Array) (i : nat) : RankedResult :=
  let row := default [] (m !! i) in
  {| id := field row 0; handle := field row 1; title := field row 2;
     img := field row 3;
     score := Str (toFixed1 (at_index scores i * 100)%float) |}.

(** [topK] is [None] when the argument is left out. *)
Definition search (query : list number) (topK : option Z) : M (list RankedResult) :=
  let topK := default 20%Z topK in
  m ← get_meta;
  scores ← compute_scores (length m) query;
  ret (map (result m scores) (ranked scores topK)).

(** ** Requests

    The calls a running server makes: [embed] and [search], in any order;
    the handler of [POST /search] chains them and reports an exception
    of either as a failed request. *)

Inductive call :=
| CallEmbed (buf : Buffer)
| CallSearch (query : list number) (topK : option Z)
| PostSearch (body : Buffer).

Section Requests.
Variable sharp_raw : Buffer -> completion Buffer.

Definition run_call (c : call) : M unit :=
  match c with
  | CallEmbed buf => embed sharp_raw buf;; ret tt
  | CallSearch query topK => search query topK;; ret tt
  | PostSearch body =>
      query ← embed sharp_raw body;
      search query None;; ret tt
  end.

(** The globals after a sequence of calls, whatever each call returned. *)
Definition run_calls (calls : list call) (g : Globals) : Globals :=
  foldl (fun g c => snd (run_call c g)) g calls.

End Requests.


(** ** Provisioning the data files (lines 12-30) *)

(** The environment variables that configure the downloads. *)
Record Env := {
  MODEL_URL : option string;
  EMBEDDINGS_URL : option string;
  META_URL : option string
}.

(** [v || ''] for an environment variable [v]: the empty string when
    [v] is unset or empty. *)
Definition or_empty (v : option string) : string := default EmptyString v.

(** Lines 12-16; [Object.entries] lists the keys in this order. *)
Definition FILES (env : Env) : object string :=
  [("model.onnx"%string, or_empty (MODEL_URL env));
   ("vs-embeddings.bin"%string, or_empty (EMBEDDINGS_URL env));
   ("vs-meta.json"%string, or_empty (META_URL env))].

(** A string used as a condition: only the empty string is falsy. *)
Definition truthy_string (s : string) : bool := negb (s =? EmptyString)%string.

Definition dquote : string := String "034"%char EmptyString.

(** The command of line 25. *)
Definition curl_command (fp url : string) : string :=
  ("curl -fSL -o " ++ dquote ++ fp ++ dquote ++ " " ++ dquote ++ url ++ dquote)%string.

Section Provision.

(** The file system and the shell belong to the host: [Disk] is a state
    of the file system, [existsSync] reads it, [execSync] runs a command,
    which changes it or throws, and [path_join] is
    [path.join(__dirname, _)]. *)
Context {Disk : Type}.
Variable existsSync : Disk -> string -> bool.
Variable execSync : string -> Disk -> completion unit * Disk.
Variable path_join : string -> string.

(** The file system, and the commands run so far. *)
Record Process := {
  disk : Disk;
  commands : list string
}.

(** Lines 20-26; the console output is left out. *)
Definition downloadIfMissing (filename url : string) (p : Process)
  : completion unit * Process :=
  let fp := path_join filename in
  if existsSync (disk p) fp then (Normal tt, p)
  else if negb (truthy_string url) then
    (Throw (Error (filename ++ " missing and no URL configured")%string), p)
  else
    let command := curl_command fp url in
    let (c, d) := execSync command (disk p) in
    (c, {| disk := d; commands := commands p ++ [command] |}).

(** Line 30: the files one after the other, up to the first exception. *)
Fixpoint provision (entries : object string) (p : Process)
  : completion unit * Process :=
  match entries with
  | [] => (Normal tt, p)
  | (f, url) :: rest =>
      match downloadIfMissing f url p with
      | (Normal _, p') => provision rest p'
      | (Throw e, p') => (Throw e, p')
      end
  end.

(** Lines 28-46 and 100 with line 30 first; [files] is what lines 34-36
    read once every file is in place. *)
Definition main (env : Env) (files : Files) (p : Process) : server * Process :=
  match provision (FILES env) p with
  | (Normal _, p') => (startup files, p')
  | (Throw e, p') => (NotStarted e, p')
  end.

End Provision.

(** ** The request handler (lines 72-98) *)

Definition ALLOWED : list string :=
  ["https://www.nigooffice.com"; "https://nigooffice.com"; "http://localhost:3456"]%string.

(** [s.startsWith(a)]. *)
Definition startsWith (s a : string) : bool := String.prefix a s.

(** A request: its [origin] header if any, method and URL, the chunks
    that iterating over it yields and, for a request that fails before
    its end (an aborted upload), the exception that the iteration throws
    after them. *)
Record IncomingMessage := {
  headers_origin : option string;
  method : string;
  url : string;
  body_chunks : list Buffer;
  body_error : option exn
}.

(** What the response is ended with: nothing, a text, the JSON text of
    one of the three objects the handler serialises, or the stream of a
    file piped into it. *)
Inductive payload :=
| NoBody
| Text (s : string)
| HealthJson (products : nat)
| ResultsJson (results : list RankedResult)
| ErrorJson (e : exn)
| FileStream (path : string).

Record ServerResponse := {
  statusCode : Z;
  headers : list (string * string);
  sent : payload
}.

(** [res.setHeader(name, value)]: replaces the header of that name, or
    adds it. *)
Fixpoint set_header (name value : string) (hs : list (string * string))
  : list (string * string) :=
  match hs with
  | [] => [(name, value)]
  | (n, v) :: rest =>
      if (n =? name)%string then (name, value) :: rest
      else (n, v) :: set_header name value rest
  end.

Definition setHeader (name value : string) (res : ServerResponse) : ServerResponse :=
  {| statusCode := statusCode res;
     headers := set_header name value (headers res);
     sent := sent res |}.

Definition set_statusCode (code : Z) (res : ServerResponse) : ServerResponse :=
  {| statusCode := code; headers := headers res; sent := sent res |}.

(** [res.end(data)], and [stream.pipe(res)]. *)
Definition end_with (data : payload) (res : ServerResponse) : ServerResponse :=
  {| statusCode := statusCode res; headers := headers res; sent := data |}.

Fixpoint getHeader (name : string) (hs : list (string * string)) : option string :=
  match hs with
  | [] => None
  | (n, v) :: rest => if (n =? name)%string then Some v else getHeader name rest
  end.

(** A response as [http.createServer] hands it to the handler. *)
Definition new_response : ServerResponse :=
  {| statusCode := 200; headers := []; sent := NoBody |}.

(** Lines 73-76. *)
Definition cors (req : IncomingMessage) (res : ServerResponse) : ServerResponse :=
  let origin := or_empty (headers_origin req) in
  let res :=
    if existsb (fun a => startsWith origin a) ALLOWED
    then setHeader "Access-Control-Allow-Origin" origin res
    else res in
  let res := setHeader "Access-Control-Allow-Methods" "POST,OPTIONS" res in
  setHeader "Access-Control-Allow-Headers" "Content-Type" res.

(** Line 87: the chunks of the body, or [None] once their sizes add up
    to more than [10e6]; the exception of a request that fails is thrown
    when the loop asks for the chunk after the last. *)
Fixpoint read_body (incoming : list Buffer) (failure : option exn)
  (chunks : list Buffer) (size : Z) : completion (option (list Buffer)) :=
  match incoming with
  | [] =>
      match failure with
      | None => Normal (Some chunks)
      | Some e => Throw e
      end
  | c :: incoming' =>
      let size := (size + Z.of_nat (length c))%Z in
      if (10000000 <? size)%Z then Normal None
      else read_body incoming' failure (chunks ++ [c]) size
  end.

(** [try { body } catch (e) { handler(e) }]. *)
Definition try_catch {A} (body : M A) (handler : exn -> M A) : M A :=
  fun g =>
    match body g with
    | (Normal a, g') => (Normal a, g')
    | (Throw e, g') => handler e g'
    end.

Section Handler.

Variable sharp_raw : Buffer -> completion Buffer.
Variable path_join : string -> string.

(** The handler of line 72, from the request to the response it ends;
    an exception it throws (the loop of line 87 is outside the [try])
    leaves the request unanswered.  The console output is left out. *)
Definition handler (req : IncomingMessage) : M ServerResponse :=
  let res := cors req new_response in
  if (method req =? "OPTIONS")%string then ret (end_with NoBody res)
  else if (method req =? "GET")%string && (url req =? "/")%string then
    let res := setHeader "Content-Type" "text/html" res in
    ret (end_with (FileStream (path_join "visual-search.html")) res)
  else if (method req =? "GET")%string && (url req =? "/health")%string then
    m ← get_meta;
    ret (end_with (HealthJson (length m)) res)
  else if (method req =? "POST")%string && (url req =? "/search")%string then
    body ← lift (read_body (body_chunks req) (body_error req) [] 0);
    match body with
    | None => ret (end_with (Text "Too large") (set_statusCode 413 res))
    | Some chunks =>
        try_catch
          (query ← embed sharp_raw (concat chunks);
           results ← search query None;
           let res := setHeader "Content-Type" "application/json" res in
           ret (end_with (ResultsJson results) res))
          (fun e => ret (end_with (ErrorJson e) (set_statusCode 500 res)))
    end
  else ret (end_with (Text "Not found") (set_statusCode 404 res)).

End Handler.
(** ** Example catalogs *)

(** The two bytes of a half-precision word, little-endian. *)
Definition le16 (h : Z) : Buffer :=
  [default x00 (Byte.of_N (Z.to_N (h mod 256)));
   default x00 (Byte.of_N (Z.to_N (h / 256)))].

(** A row of the blob: the given words, then zeros up to 512 words. *)
Definition row_blob (hs : list Z) : Buffer :=
  mjoin (map le16 (hs ++ replicate (512 - length hs) 0%Z)).

Definition product (n : Z) (name : string) : Row :=
  [Num (of_Z n); Str name; Str name; Str (String.append name ".png")].

(** A model that returns the given outputs whatever the image. *)
Definition constant_model (outputs : list (string * Tensor)) : InferenceSession :=
  {| session_run := fun _ => Normal outputs |}.

Definition vector_tensor (v : list number) : Tensor :=
  {| tensor_type := "float32"; tensor_data := v; tensor_dims := [1%Z; Z.of_nat (length v)] |}.

Definition zero_vector : list number := replicate 512 0%float.

(** The query [1, 0, 0, ...], a unit vector. *)
Definition unit_query : list number := 1%float :: replicate 511 0%float.

(** Three products: A = [1, 0, ...], B = [0, 1, 0, ...] and
    C = [0.6, 0.8, 0, ...] in half precision. *)
Definition example_files : Files :=
  {| model_onnx := constant_model [("image_embeds"%string, vector_tensor unit_query)];
     vs_meta_json := [product 1 "a"; product 2 "b"; product 3 "c"];
     vs_embeddings_bin :=
       row_blob [0x3C00] ++ row_blob [0; 0x3C00] ++ row_blob [0x38CD; 0x3A66] |}%Z.

(** Two products, the first with a NaN (0x7E00) in its vector. *)
Definition nan_files : Files :=
  {| model_onnx := constant_model [("image_embeds"%string, vector_tensor unit_query)];
     vs_meta_json := [product 1 "a"; product 2 "b"];
     vs_embeddings_bin := row_blob [0x7E00] ++ row_blob [0x3C00] |}%Z.

(** Seven products whose first components are 5, 4, 0, NaN, 1, 3 and 1. *)
Definition tie_files : Files :=
  {| model_onnx := constant_model [("image_embeds"%string, vector_tensor unit_query)];
     vs_meta_json := [product 0 "p0"; product 1 "p1"; product 2 "p2"; product 3 "p3";
                      product 4 "p4"; product 5 "p5"; product 6 "p6"];
     vs_embeddings_bin :=
       row_blob [0x4500] ++ row_blob [0x4400] ++ row_blob [0] ++ row_blob [0x7E00]
       ++ row_blob [0x3C00] ++ row_blob [0x4200] ++ row_blob [0x3C00] |}%Z.

(** Three products whose first components are 0.5, 1 and 1: the last two
    tie for a query along the first axis. *)
Definition tied_files : Files :=
  {| model_onnx := constant_model [("image_embeds"%string, vector_tensor unit_query)];
     vs_meta_json := [product 0 "p0"; product 1 "p1"; product 2 "p2"];
     vs_embeddings_bin := row_blob [0x3800] ++ row_blob [0x3C00] ++ row_blob [0x3C00] |}%Z.

(** One product and a blob two bytes longer than its vector. *)
Definition oversized_files : Files :=
  {| model_onnx := constant_model [("image_embeds"%string, vector_tensor unit_query)];
     vs_meta_json := [product 1 "a"];
     vs_embeddings_bin := row_blob [0x3C00] ++ [x00; x00] |}%Z.

(** One product and a blob two bytes shorter than its vector. *)
Definition truncated_files : Files :=
  {| model_onnx := constant_model [("image_embeds"%string, vector_tensor unit_query)];
     vs_meta_json := [product 1 "a"];
     vs_embeddings_bin := take 1022 (row_blob [0x3C00]) |}%Z.

(** An image decoder that accepts every input as a grey image. *)
Definition grey_image (buf : list byte) : completion (list byte) :=
  Normal (replicate (224 * 224 * 3) x80).

(** * IEEE-754 arithmetic in [SpecFloat] *)

Section IEEE.
Local Open Scope Z_scope.

(** ** Rounding in [SpecFloat] *)

Lemma digits2_size p : digits2_pos p = Pos.size p.
Proof. induction p; simpl; congruence. Qed.

Lemma digits2_bounds (m : positive) :
  2 ^ (Zpos (digits2_pos m) - 1) <= Zpos m < 2 ^ Zpos (digits2_pos m).
Proof.
  rewrite digits2_size. split.
  - pose proof (Pos.size_le m) as H.
    assert (Hp : (2 ^ Pos.size m <= m~0)%positive) by exact H.
    apply Pos2Z.pos_le_pos in Hp. rewrite Pos2Z.inj_pow in Hp.
    replace (Zpos (Pos.size m)) with (Zpos (Pos.size m) - 1 + 1) in Hp by lia.
    rewrite Z.pow_add_r in Hp by lia. change (Zpos m~0) with (2 * Zpos m) in Hp. lia.
  - pose proof (Pos.size_gt m) as H. apply Pos2Z.pos_lt_pos in H.
    now rewrite Pos2Z.inj_pow in H.
Qed.

Lemma digits2_unique (m : positive) (k : Z) :
  2 ^ (k - 1) <= Zpos m < 2 ^ k -> Zpos (digits2_pos m) = k.
Proof.
  intros [Hlo Hhi]. pose proof (digits2_bounds m) as [Dlo Dhi].
  set (d := Zpos (digits2_pos m)) in *.
  assert (0 < k).
  { destruct (Z.lt_trichotomy k 0) as [Hk|[Hk|Hk]]; [|subst k; simpl in Hhi; lia|lia].
    rewrite (Z.pow_neg_r 2 k) in Hhi by lia. lia. }
  destruct (Z.lt_trichotomy d k) as [Hlt|[Heq|Hgt]]; [|assumption|].
  - assert (2 ^ d <= 2 ^ (k - 1)) by (apply Z.pow_le_mono_r; lia). lia.
  - assert (2 ^ k <= 2 ^ (d - 1)) by (apply Z.pow_le_mono_r; lia). lia.
Qed.

Lemma iter_pos_nat {A} (f : A -> A) p x :
  SpecFloat.iter_pos f p x = Nat.iter (Pos.to_nat p) f x.
Proof.
  revert x. induction p as [p IH|p IH|]; intros x; cbn [SpecFloat.iter_pos].
  - rewrite !IH, Pos2Nat.inj_xI, Nat.iter_succ_r.
    replace (2 * Pos.to_nat p)%nat with (Pos.to_nat p + Pos.to_nat p)%nat by lia.
    now rewrite Nat.iter_add.
  - rewrite !IH, Pos2Nat.inj_xO.
    replace (2 * Pos.to_nat p)%nat with (Pos.to_nat p + Pos.to_nat p)%nat by lia.
    now rewrite Nat.iter_add.
  - reflexivity.
Qed.

Lemma shr_1_m mrs : 0 <= shr_m mrs -> shr_m (shr_1 mrs) = shr_m mrs / 2.
Proof.
  destruct mrs as [m r s]. simpl. intros Hm.
  destruct m as [|[p|p|]|p]; simpl; try lia; try reflexivity.
  - rewrite Pos2Z.inj_xI. apply Z.div_unique with 1; lia.
  - rewrite Pos2Z.inj_xO. apply Z.div_unique with 0; lia.
Qed.

Lemma shr_iter_m n mrs :
  0 <= shr_m mrs -> shr_m (Nat.iter n shr_1 mrs) = shr_m mrs / 2 ^ Z.of_nat n.
Proof.
  intros Hm. induction n as [|n IH].
  - simpl. now rewrite Z.div_1_r.
  - assert (Hp : 0 < 2 ^ Z.of_nat n) by (apply Z.pow_pos_nonneg; lia).
    rewrite Nat2Z.inj_succ, Z.pow_succ_r by lia.
    change (Nat.iter (S n) shr_1 mrs) with (shr_1 (Nat.iter n shr_1 mrs)).
    rewrite shr_1_m, IH.
    + rewrite Z.div_div by lia. f_equal. lia.
    + rewrite IH. apply Z.div_pos; lia.
Qed.

Lemma shr_m_spec mrs e n :
  0 <= shr_m mrs ->
  shr_m (fst (shr mrs e n)) = shr_m mrs / 2 ^ Z.max 0 n /\ snd (shr mrs e n) = e + Z.max 0 n.
Proof.
  intros Hm. destruct n as [|p|p]; simpl.
  - rewrite Z.div_1_r. split; [reflexivity | lia].
  - rewrite iter_pos_nat, shr_iter_m by assumption.
    rewrite positive_nat_Z. split; reflexivity.
  - rewrite Z.div_1_r. split; [reflexivity | lia].
Qed.

Lemma round_nearest_even_bounds mx lx :
  mx <= round_nearest_even mx lx <= mx + 1.
Proof.
  destruct lx as [|[]]; simpl; try lia.
  destruct (Z.even mx); lia.
Qed.

Lemma pow2_pos z : 0 <= z -> 0 < 2 ^ z.
Proof. intros. apply Z.pow_pos_nonneg; lia. Qed.

Lemma pos_iter_xO (m d : positive) : Zpos (Pos.iter xO m d) = Zpos m * 2 ^ Zpos d.
Proof.
  induction d as [|d IH] using Pos.peano_ind.
  - simpl. lia.
  - rewrite Pos.iter_succ, Pos2Z.inj_xO, IH, Pos2Z.inj_succ, Z.pow_succ_r by lia. lia.
Qed.

Lemma digits2_shift (m : positive) (k : Z) (mz : positive) :
  0 <= k -> Zpos mz = Zpos m * 2 ^ k ->
  Zpos (digits2_pos mz) = Zpos (digits2_pos m) + k.
Proof.
  intros Hk Hmz. apply digits2_unique. rewrite Hmz.
  pose proof (digits2_bounds m) as [Dlo Dhi].
  assert (0 < 2 ^ k) by (apply pow2_pos; lia).
  replace (Zpos (digits2_pos m) + k - 1) with (Zpos (digits2_pos m) - 1 + k) by lia.
  rewrite !Z.pow_add_r by lia. nia.
Qed.

Section Rounding.
Variables prec emax : Z.
Hypothesis prec_pos : 0 < prec.

Let emin := SpecFloat.emin prec emax.
Let fexp := SpecFloat.fexp prec emax.

(** The float of mantissa [m2] (at most [2^prec]) and exponent [f]. *)
Definition pack (s : bool) (m2 f : Z) : spec_float :=
  if m2 =? 0 then S754_zero s
  else if m2 =? 2 ^ prec then
    if f + 1 <=? emax - prec
    then S754_finite s (Z.to_pos (2 ^ (prec - 1))) (f + 1)
    else S754_infinity s
  else
    if f <=? emax - prec then S754_finite s (Z.to_pos m2) f else S754_infinity s.

Lemma fexp_ge_emin z : emin <= fexp z.
Proof. unfold fexp, SpecFloat.fexp, emin. lia. Qed.


(** Second normalization step of [binary_round_aux]. *)
Lemma renormalize s m2 f :
  emin <= f -> 0 <= m2 <= 2 ^ prec -> (emin < f -> 2 ^ (prec - 1) <= m2) ->
  (let '(mrs, e) := shr_fexp prec emax m2 f loc_Exact in
   match shr_m mrs with
   | Z0 => S754_zero s
   | Zpos m => if e <=? emax - prec then S754_finite s m e else S754_infinity s
   | Zneg _ => S754_nan
   end) = pack s m2 f.
Proof.
  intros Hf [Hm0 Hm1] Hnorm. unfold pack.
  assert (Hpp : 0 < 2 ^ prec) by (apply pow2_pos; lia).
  assert (Hpp1 : 0 < 2 ^ (prec - 1)) by (apply pow2_pos; lia).
  assert (Hdouble : 2 ^ prec = 2 * 2 ^ (prec - 1)).
  { replace prec with (Z.succ (prec - 1)) at 1 by lia. apply Z.pow_succ_r. lia. }
  destruct m2 as [|p|p]; [| |lia].
  - (* zero *)
    unfold shr_fexp. simpl Zdigits2. rewrite Z.add_0_l.
    assert (Hn : SpecFloat.fexp prec emax f - f <= 0)
      by (unfold SpecFloat.fexp; fold emin; lia).
    destruct (SpecFloat.fexp prec emax f - f) as [|q|q] eqn:E; try lia; reflexivity.
  - pose proof (digits2_bounds p) as [Dlo Dhi].
    set (d := Zpos (digits2_pos p)) in *.
    unfold shr_fexp. change (Zdigits2 (Zpos p)) with d.
    destruct (Z.eqb_spec (Zpos p) (2 ^ prec)) as [Heq|Hne].
    + (* carry: one more shift *)
      assert (Hd : d = prec + 1).
      { apply digits2_unique. rewrite Heq. replace (prec + 1 - 1) with prec by lia.
        split; [lia|]. apply Z.pow_lt_mono_r; lia. }
      assert (Hn : SpecFloat.fexp prec emax (d + f) - f = 1)
        by (unfold SpecFloat.fexp; fold emin; lia).
      rewrite Hn. cbn [shr SpecFloat.iter_pos]. cbn [shr_record_of_loc].
      pose proof (shr_1_m {| shr_m := Zpos p; shr_r := false; shr_s := false |}) as H1.
      cbn [shr_m] in H1. rewrite H1 by lia. rewrite Heq, Hdouble.
      rewrite Z.mul_comm, Z.div_mul by lia.
      destruct (2 ^ (prec - 1)) as [|q|q] eqn:Eq; try lia. reflexivity.
    + (* already canonical *)
      assert (Hd : d <= prec).
      { destruct (Z.le_gt_cases d prec) as [|Hgt]; [assumption|].
        assert (2 ^ prec <= 2 ^ (d - 1)) by (apply Z.pow_le_mono_r; lia). lia. }
      assert (Hn : SpecFloat.fexp prec emax (d + f) - f = 0).
      { unfold SpecFloat.fexp. fold emin.
        destruct (Z.eq_dec f emin) as [->|Hfe]; [lia|].
        assert (d = prec); [|lia].
        apply digits2_unique. split; [apply Hnorm; lia | lia]. }
      rewrite Hn. cbn [shr shr_record_of_loc shr_m]. reflexivity.
Qed.

Lemma shr_fexp_none (m : positive) e :
  fexp (Zpos (digits2_pos m) + e) - e <= 0 ->
  shr_fexp prec emax (Zpos m) e loc_Exact
  = ({| shr_m := Zpos m; shr_r := false; shr_s := false |}, e).
Proof.
  intros Hn. unfold shr_fexp. cbn [Zdigits2 shr_record_of_loc]. fold fexp.
  destruct (fexp (Zpos (digits2_pos m) + e) - e); try lia; reflexivity.
Qed.

(** [binary_round_aux] on an exact mantissa: the mantissa is shifted right
    by [n] bits and rounded to one of its two neighbours. *)
Lemma binary_round_aux_exact s (m : positive) e :
  let n := fexp (Zpos (digits2_pos m) + e) - e in
  (n <= 0 ->
     binary_round_aux prec emax s (Zpos m) e loc_Exact
     = let n2 := n in
       if e <=? emax - prec then S754_finite s m e else S754_infinity s) /\
  (0 < n ->
     exists m2,
       Zpos m / 2 ^ n <= m2 <= Zpos m / 2 ^ n + 1 /\
       m2 <= 2 ^ prec /\
       (emin < e + n -> 2 ^ (prec - 1) <= m2) /\
       binary_round_aux prec emax s (Zpos m) e loc_Exact = pack s m2 (e + n)).
Proof.
  intros n. pose proof (digits2_bounds m) as [Dlo Dhi].
  set (d := Zpos (digits2_pos m)) in *.
  assert (Hfexp : fexp (d + e) = Z.max (d + e - prec) emin) by reflexivity.
  split; intros Hn.
  - unfold binary_round_aux. rewrite shr_fexp_none by assumption.
    cbn [shr_m loc_of_shr_record round_nearest_even].
    rewrite shr_fexp_none by assumption. reflexivity.
  - assert (Hpn : 0 < 2 ^ n) by (apply pow2_pos; lia).
    unfold binary_round_aux, shr_fexp. change (Zdigits2 (Zpos m)) with d.
    fold fexp. fold n.
    pose proof (shr_m_spec (shr_record_of_loc (Zpos m) loc_Exact) e n) as [Hm He];
      [simpl; lia|].
    destruct (shr (shr_record_of_loc (Zpos m) loc_Exact) e n) as [mrs' e'].
    cbn [fst snd shr_record_of_loc shr_m] in Hm, He.
    rewrite Z.max_r in Hm, He by lia. subst e'.
    pose proof (round_nearest_even_bounds (shr_m mrs') (loc_of_shr_record mrs')) as Hr.
    set (m2 := round_nearest_even (shr_m mrs') (loc_of_shr_record mrs')) in *.
    rewrite Hm in Hr.
    assert (Hm1 : Zpos m / 2 ^ n < 2 ^ prec).
    { apply Z.div_lt_upper_bound; [assumption|].
      rewrite <- Z.pow_add_r by lia.
      assert (2 ^ d <= 2 ^ (n + prec)) by (apply Z.pow_le_mono_r; unfold n; lia). lia. }
    assert (Hm1' : emin < e + n -> 2 ^ (prec - 1) <= Zpos m / 2 ^ n).
    { intros Hnorm. apply Z.div_le_lower_bound; [assumption|].
      rewrite <- Z.pow_add_r by lia.
      replace (n + (prec - 1)) with (d - 1) by (unfold n in *; lia). assumption. }
    assert (H0 : 0 <= Zpos m / 2 ^ n) by (apply Z.div_pos; lia).
    exists m2. repeat split; try lia.
    apply renormalize; [unfold n; pose proof (fexp_ge_emin (d + e)); lia | lia | lia].
Qed.



(** [binary_round]: the mantissa is aligned on the exponent [fexp], exactly
    when that is a shift to the left, by rounding otherwise. *)
Lemma binary_round_pack s (m : positive) e :
  let f := fexp (Zpos (digits2_pos m) + e) in
  exists m2,
    binary_round prec emax s m e = pack s m2 f /\
    0 < m2 + (if emin <=? e then 0 else 1) /\ 0 <= m2 <= 2 ^ prec /\
    (emin < f -> 2 ^ (prec - 1) <= m2) /\
    (f <= e -> m2 = Zpos m * 2 ^ (e - f)) /\
    (e < f -> Zpos m / 2 ^ (f - e) <= m2 <= Zpos m / 2 ^ (f - e) + 1).
Proof.
  intros f. pose proof (digits2_bounds m) as [Dlo Dhi].
  set (d := Zpos (digits2_pos m)) in *.
  assert (Hf : f = Z.max (d + e - prec) emin) by reflexivity.
  assert (Hpp : 0 < 2 ^ prec) by (apply pow2_pos; lia).
  assert (Hpp1 : 0 < 2 ^ (prec - 1)) by (apply pow2_pos; lia).
  unfold binary_round. fold fexp. fold d. fold f. unfold shl_align.
  destruct (f - e) as [|q|q] eqn:E.
  - (* already aligned *)
    destruct (binary_round_aux_exact s m e) as [Hexact _].
    fold d in Hexact. fold f in Hexact. rewrite Hexact by lia.
    assert (He : f = e) by lia.
    exists (Zpos m). replace (e - f) with 0 by lia. rewrite He, Z.mul_1_r.
    assert (Hlt : Zpos m < 2 ^ prec).
    { assert (2 ^ d <= 2 ^ prec) by (apply Z.pow_le_mono_r; lia). lia. }
    assert (Hge : emin < e -> 2 ^ (prec - 1) <= Zpos m).
    { intros. replace (prec - 1) with (d - 1) by lia. assumption. }
    repeat split; try lia; [|destruct (emin <=? e); lia].
    unfold pack. destruct (Z.eqb_spec (Zpos m) 0); [lia|].
    destruct (Z.eqb_spec (Zpos m) (2 ^ prec)); [lia|]. reflexivity.
  - (* rounding *)
    destruct (binary_round_aux_exact s m e) as [_ Hround].
    fold d in Hround. fold f in Hround. rewrite E in Hround.
    destruct Hround as [m2 [Hm2 [Hup [Hlo Heq]]]]; [lia|].
    assert (0 <= Zpos m / 2 ^ Zpos q) by (apply Z.div_pos; [lia | apply pow2_pos; lia]).
    exists m2. replace (e + Zpos q) with f in * by lia.
    repeat split; try lia; try assumption.
    destruct (Z.leb_spec emin e); [|lia].
    assert (2 ^ (prec - 1) <= m2) by (apply Hlo; lia). lia.
  - (* shift to the left *)
    set (mz := Pos.iter xO m q).
    assert (Hmz : Zpos mz = Zpos m * 2 ^ (e - f))
      by (unfold mz; rewrite pos_iter_xO; replace (Zpos q) with (e - f) by lia; reflexivity).
    assert (Hdz : Zpos (digits2_pos mz) = d + (e - f))
      by (apply digits2_shift; [lia | assumption]).
    destruct (binary_round_aux_exact s mz f) as [Hexact _].
    rewrite Hdz in Hexact. replace (d + (e - f) + f) with (d + e) in Hexact by lia.
    fold f in Hexact. rewrite Hexact by lia.
    pose proof (digits2_bounds mz) as [Zlo Zhi]. rewrite Hdz in Zlo, Zhi.
    assert (Hlt : Zpos mz < 2 ^ prec).
    { assert (2 ^ (d + (e - f)) <= 2 ^ prec) by (apply Z.pow_le_mono_r; lia). lia. }
    assert (Hge : emin < f -> 2 ^ (prec - 1) <= Zpos mz).
    { intros. replace (prec - 1) with (d + (e - f) - 1) by lia. assumption. }
    exists (Zpos mz). repeat split; try lia; [|destruct (emin <=? e); lia].
    unfold pack. destruct (Z.eqb_spec (Zpos mz) 0); [lia|].
    destruct (Z.eqb_spec (Zpos mz) (2 ^ prec)); [lia|]. reflexivity.
Qed.

(** A packed mantissa is a valid float. *)
Lemma pack_valid s m2 f :
  emin <= f -> 0 <= m2 <= 2 ^ prec -> (emin < f -> 2 ^ (prec - 1) <= m2) ->
  SpecFloat.valid_binary prec emax (pack s m2 f) = true.
Proof.
  intros Hf [Hm0 Hm1] Hnorm. unfold pack.
  assert (Hpp : 0 < 2 ^ prec) by (apply pow2_pos; lia).
  assert (Hpp1 : 0 < 2 ^ (prec - 1)) by (apply pow2_pos; lia).
  assert (Hdouble : 2 ^ prec = 2 * 2 ^ (prec - 1)).
  { replace prec with (Z.succ (prec - 1)) at 1 by lia. apply Z.pow_succ_r. lia. }
  destruct (Z.eqb_spec m2 0); [reflexivity|].
  destruct (Z.eqb_spec m2 (2 ^ prec)) as [Heq|Hne].
  - destruct (Z.leb_spec (f + 1) (emax - prec)) as [Hb|Hb]; [|reflexivity].
    cbn [SpecFloat.valid_binary]. unfold bounded, canonical_mantissa.
    apply andb_true_intro. split; [|now apply Z.leb_le].
    apply Z.eqb_eq.
    assert (Hd : Zpos (digits2_pos (Z.to_pos (2 ^ (prec - 1)))) = prec).
    { apply digits2_unique. rewrite Z2Pos.id by lia. lia. }
    rewrite Hd. unfold SpecFloat.fexp. fold emin. lia.
  - destruct (Z.leb_spec f (emax - prec)) as [Hb|Hb]; [|reflexivity].
    cbn [SpecFloat.valid_binary]. unfold bounded, canonical_mantissa.
    apply andb_true_intro. split; [|now apply Z.leb_le].
    apply Z.eqb_eq.
    pose proof (digits2_bounds (Z.to_pos m2)) as [Dlo Dhi].
    rewrite Z2Pos.id in Dlo, Dhi by lia.
    set (d := Zpos (digits2_pos (Z.to_pos m2))) in *.
    assert (Hd : d <= prec).
    { destruct (Z.le_gt_cases d prec) as [|Hgt]; [assumption|].
      assert (2 ^ prec <= 2 ^ (d - 1)) by (apply Z.pow_le_mono_r; lia). lia. }
    unfold SpecFloat.fexp. fold emin.
    destruct (Z.eq_dec f emin) as [->|Hfe]; [lia|].
    assert (d = prec); [|lia].
    apply digits2_unique. rewrite Z2Pos.id by lia. split; [apply Hnorm; lia | lia].
Qed.

Lemma binary_round_valid s m e : SpecFloat.valid_binary prec emax (binary_round prec emax s m e) = true.
Proof.
  destruct (binary_round_pack s m e) as [m2 [-> [_ [Hm [Hlo _]]]]].
  apply pack_valid; [apply fexp_ge_emin | assumption | assumption].
Qed.

(** Above the smallest exponent a rounded mantissa keeps its sign and never
    becomes a zero. *)
Lemma binary_round_sign s m e :
  emin <= e ->
  (exists m' e', binary_round prec emax s m e = S754_finite s m' e')
  \/ binary_round prec emax s m e = S754_infinity s.
Proof.
  intros He. destruct (binary_round_pack s m e) as [m2 [-> [Hpos _]]].
  destruct (Z.leb_spec emin e); [|lia].
  unfold pack. destruct (Z.eqb_spec m2 0); [lia|].
  destruct (m2 =? 2 ^ prec).
  - destruct (_ <=? _); eauto.
  - destruct (_ <=? _); eauto.
Qed.

End Rounding.

(** ** Binary64: order and subtraction *)

Lemma valid_finite_bounds s m e :
  valid_binary (S754_finite s m e) = true ->
  -1074 <= e <= 971 /\ Zpos m < 2 ^ 53 /\ (-1074 < e -> 2 ^ 52 <= Zpos m).
Proof.
  cbn [SpecFloat.valid_binary]. unfold bounded, canonical_mantissa, fexp, emin.
  change prec with 53. change emax with 1024.
  intros H. apply andb_prop in H as [Hc Hb].
  apply Z.eqb_eq in Hc. apply Z.leb_le in Hb.
  pose proof (digits2_bounds m) as [Dlo Dhi].
  set (d := Zpos (digits2_pos m)) in *.
  assert (Hd : d <= 53) by lia.
  assert (2 ^ d <= 2 ^ 53) by (apply Z.pow_le_mono_r; lia).
  repeat split; try lia.
  intros He. assert (d = 53) by lia. subst d.
  replace 52 with (Zpos (digits2_pos m) - 1) by lia. assumption.
Qed.

(** A finite binary64 value as a multiple of [2^-1074]. *)
Definition scaled (x : spec_float) : Z :=
  match x with
  | S754_finite s m e => (if s then -1 else 1) * (Zpos m * 2 ^ (e + 1074))
  | _ => 0
  end.

(** An integer that orders the binary64 values other than NaN. *)
Definition rank_SF (x : spec_float) : Z :=
  match x with
  | S754_infinity s => if s then - 2 ^ 2100 else 2 ^ 2100
  | _ => scaled x
  end.

Lemma scaled_finite_bounds s m e :
  valid_binary (S754_finite s m e) = true ->
  0 < Zpos m * 2 ^ (e + 1074) < 2 ^ 2100.
Proof.
  intros Hv. apply valid_finite_bounds in Hv as [He [Hm _]].
  assert (0 < 2 ^ (e + 1074)) by (apply Z.pow_pos_nonneg; lia).
  assert (2 ^ (e + 1074) <= 2 ^ 2045) by (apply Z.pow_le_mono_r; lia).
  assert (Hbig : 2 ^ 53 * 2 ^ 2045 < 2 ^ 2100)
    by (rewrite <- Z.pow_add_r by lia; apply Z.pow_lt_mono_r; lia).
  assert (H53 : 0 < 2 ^ 53) by (apply Z.pow_pos_nonneg; lia).
  split; [apply Z.mul_pos_pos; lia|].
  apply Z.lt_trans with (2 ^ 53 * 2 ^ (e + 1074)).
  - apply Z.mul_lt_mono_pos_r; assumption.
  - eapply Z.le_lt_trans; [|exact Hbig].
    apply Z.mul_le_mono_nonneg_l; [apply Z.lt_le_incl|]; assumption.
Qed.

Lemma scaled_lt_exponent m1 e1 m2 e2 s1 s2 :
  valid_binary (S754_finite s1 m1 e1) = true ->
  valid_binary (S754_finite s2 m2 e2) = true ->
  e1 < e2 -> Zpos m1 * 2 ^ (e1 + 1074) < Zpos m2 * 2 ^ (e2 + 1074).
Proof.
  intros H1 H2 He.
  apply valid_finite_bounds in H1 as [He1 [Hm1 _]].
  apply valid_finite_bounds in H2 as [He2 [_ Hm2]].
  specialize (Hm2 ltac:(lia)).
  assert (Hp : 0 < 2 ^ (e1 + 1074)) by (apply Z.pow_pos_nonneg; lia).
  assert (Hq : 2 * 2 ^ (e1 + 1074) <= 2 ^ (e2 + 1074)).
  { rewrite <- Z.pow_succ_r by lia. apply Z.pow_le_mono_r; lia. }
  change (2 ^ 53) with (2 * 2 ^ 52) in Hm1.
  assert (0 < 2 ^ 52) by reflexivity.
  nia.
Qed.

Lemma SFcompare_rank x y :
  valid_binary x = true -> valid_binary y = true ->
  x <> S754_nan -> y <> S754_nan ->
  SFcompare x y = Some (rank_SF x ?= rank_SF y).
Proof.
  intros Hx Hy Nx Ny.
  assert (Hbig : 0 < 2 ^ 2100) by reflexivity.
  destruct x as [sx|sx| |sx mx ex], y as [sy|sy| |sy my ey]; try congruence;
    cbn [SFcompare rank_SF scaled];
    try (pose proof (scaled_finite_bounds _ _ _ Hx));
    try (pose proof (scaled_finite_bounds _ _ _ Hy));
    try solve [ repeat match goal with s : bool |- _ => destruct s end;
                remember (2 ^ 2100) as B eqn:HB in *; clear HB;
                f_equal; symmetry;
                first [ apply Z.compare_eq_iff; lia
                      | apply Z.compare_lt_iff; lia
                      | apply Z.compare_gt_iff; lia ] ].
  remember (2 ^ 2100) as B eqn:HB in *; clear HB.
  assert (Hcmp : (Zpos mx * 2 ^ (ex + 1074) ?= Zpos my * 2 ^ (ey + 1074))
                 = match ex ?= ey with
                   | Lt => Lt | Gt => Gt | Eq => Pos.compare_cont Eq mx my
                   end).
  { destruct (Z.compare_spec ex ey) as [->|Hlt|Hgt].
    - change (Pos.compare_cont Eq mx my) with (Zpos mx ?= Zpos my).
      assert (0 < 2 ^ (ey + 1074))
        by (apply valid_finite_bounds in Hy; apply Z.pow_pos_nonneg; lia).
      destruct (Z.compare_spec (Zpos mx) (Zpos my)) as [->|Hm|Hm].
      + apply Z.compare_refl.
      + apply Z.compare_lt_iff. nia.
      + apply Z.compare_gt_iff. nia.
    - apply Z.compare_lt_iff. eapply scaled_lt_exponent; eassumption.
    - apply Z.compare_gt_iff. eapply scaled_lt_exponent; eassumption. }
  set (a := Zpos mx * 2 ^ (ex + 1074)) in *.
  set (b := Zpos my * 2 ^ (ey + 1074)) in *.
  destruct sx, sy; f_equal.
  - replace (-1 * a) with (- a) by lia. replace (-1 * b) with (- b) by lia.
    rewrite Z.compare_opp, (Z.compare_antisym a b), Hcmp.
    destruct (ex ?= ey); reflexivity.
  - symmetry. apply Z.compare_lt_iff. lia.
  - symmetry. apply Z.compare_gt_iff. lia.
  - rewrite <- Hcmp. f_equal; lia.
Qed.

Lemma shl_align_fst m e e' :
  e' <= e -> Zpos (fst (shl_align m e e')) = Zpos m * 2 ^ (e - e').
Proof.
  intros He. unfold shl_align. destruct (e' - e) as [|d|d] eqn:E; cbn [fst]; try lia.
  - replace (e - e') with 0 by lia. rewrite Z.pow_0_r. lia.
  - rewrite pos_iter_xO. replace (Zpos d) with (e - e') by lia. reflexivity.
Qed.

Lemma emin64 : SpecFloat.emin prec emax = -1074.
Proof. reflexivity. Qed.

Definition SFnegative (x : spec_float) : bool :=
  match x with
  | S754_finite s _ _ | S754_infinity s => s
  | _ => false
  end.

Lemma SFltb_zero x : SFltb x (S754_zero false) = SFnegative x.
Proof. destruct x as [[]|[]| |[] m e]; reflexivity. Qed.

Lemma binary_normalize_negative (d : Z) e :
  -1074 <= e ->
  SFnegative (binary_normalize prec emax d e false) = (d <? 0).
Proof.
  intros He. destruct d as [|p|p]; cbn [binary_normalize]; [reflexivity| |].
  - destruct (binary_round_sign prec emax ltac:(reflexivity) false p e) as [[m' [e' ->]]| ->];
      [rewrite emin64; lia | reflexivity | reflexivity].
  - destruct (binary_round_sign prec emax ltac:(reflexivity) true p e) as [[m' [e' ->]]| ->];
      [rewrite emin64; lia | reflexivity | reflexivity].
Qed.

(** The sign of a difference is the order of its operands: binary64 has
    subnormal numbers, so a difference of distinct numbers is never zero. *)
Lemma SFsub_negative x y :
  valid_binary x = true -> valid_binary y = true ->
  x <> S754_nan -> y <> S754_nan ->
  SFnegative (SF64sub x y) = (rank_SF x <? rank_SF y).
Proof.
  intros Hx Hy Nx Ny.
  assert (Hbig : 0 < 2 ^ 2100) by reflexivity.
  destruct x as [sx|sx| |sx mx ex], y as [sy|sy| |sy my ey]; try congruence;
    unfold SF64sub; cbn [SFsub rank_SF scaled SFnegative];
    try (pose proof (scaled_finite_bounds _ _ _ Hx));
    try (pose proof (scaled_finite_bounds _ _ _ Hy));
    try solve [ repeat match goal with s : bool |- _ => destruct s end;
                remember (2 ^ 2100) as B eqn:HB in *; clear HB;
                cbn [SFnegative negb]; symmetry;
                first [ apply Z.ltb_lt; lia | apply Z.ltb_ge; lia ] ].
  clear Hbig H H0.
  pose proof (valid_finite_bounds _ _ _ Hx) as [Hex _].
  pose proof (valid_finite_bounds _ _ _ Hy) as [Hey _].
  set (ez := Z.min ex ey).
  rewrite binary_normalize_negative by (unfold ez; lia).
  rewrite !shl_align_fst by (unfold ez; lia).
  assert (Hp : 0 < 2 ^ (ez + 1074)) by (apply Z.pow_pos_nonneg; unfold ez; lia).
  assert (Hsx : Zpos mx * 2 ^ (ex + 1074) = Zpos mx * 2 ^ (ex - ez) * 2 ^ (ez + 1074)).
  { rewrite <- Z.mul_assoc, <- Z.pow_add_r by (unfold ez; lia).
    f_equal. f_equal. lia. }
  assert (Hsy : Zpos my * 2 ^ (ey + 1074) = Zpos my * 2 ^ (ey - ez) * 2 ^ (ez + 1074)).
  { rewrite <- Z.mul_assoc, <- Z.pow_add_r by (unfold ez; lia).
    f_equal. f_equal. lia. }
  rewrite Hsx, Hsy.
  set (a := Zpos mx * 2 ^ (ex - ez)). set (b := Zpos my * 2 ^ (ey - ez)).
  set (P := 2 ^ (ez + 1074)) in *.
  assert (Hl : forall (s : bool) v, (if s then -1 else 1) * (v * P) = cond_Zopp s v * P)
    by (intros [] v; simpl; lia).
  rewrite !Hl. generalize (cond_Zopp sx a) (cond_Zopp sy b). intros X Y.
  destruct (Z.ltb_spec (X - Y) 0) as [Hd|Hd];
    destruct (Z.ltb_spec (X * P) (Y * P)) as [Hm|Hm]; try reflexivity; exfalso.
  - assert (X * P < Y * P) by (apply Z.mul_lt_mono_pos_r; lia). lia.
  - assert (Y * P <= X * P) by (apply Z.mul_le_mono_nonneg_r; lia). lia.
Qed.

(** *** The same on primitive floats *)

Definition rank (x : float) : Z := rank_SF (Prim2SF x).

Lemma Number_isNaN_false x : Number_isNaN x = false -> Prim2SF x <> S754_nan.
Proof. unfold Number_isNaN. destruct (Prim2SF x); congruence. Qed.

Lemma compare_rank x y :
  Number_isNaN x = false -> Number_isNaN y = false ->
  SFcompare (Prim2SF x) (Prim2SF y) = Some (rank x ?= rank y).
Proof.
  intros Hx Hy. apply SFcompare_rank; auto using Prim2SF_valid, Number_isNaN_false.
Qed.

Lemma ltb_rank x y :
  Number_isNaN x = false -> Number_isNaN y = false -> (x <? y)%float = (rank x <? rank y).
Proof.
  intros Hx Hy. rewrite FloatAxioms.ltb_spec. unfold SFltb. rewrite compare_rank by assumption.
  unfold Z.ltb. now destruct (rank x ?= rank y).
Qed.

Lemma leb_rank x y :
  Number_isNaN x = false -> Number_isNaN y = false -> (x <=? y)%float = (rank x <=? rank y).
Proof.
  intros Hx Hy. rewrite FloatAxioms.leb_spec. unfold SFleb. rewrite compare_rank by assumption.
  unfold Z.leb. now destruct (rank x ?= rank y).
Qed.

Lemma eqb_rank x y :
  Number_isNaN x = false -> Number_isNaN y = false -> (x =? y)%float = (rank x =? rank y).
Proof.
  intros Hx Hy. rewrite FloatAxioms.eqb_spec. unfold SFeqb. rewrite compare_rank by assumption.
  destruct (Z.compare_spec (rank x) (rank y)); destruct (Z.eqb_spec (rank x) (rank y));
    try reflexivity; lia.
Qed.

Lemma sub_ltb_zero x y :
  Number_isNaN x = false -> Number_isNaN y = false ->
  (x - y <? 0)%float = (rank x <? rank y).
Proof.
  intros Hx Hy. rewrite FloatAxioms.ltb_spec, FloatAxioms.sub_spec.
  change (Prim2SF 0) with (S754_zero false).
  rewrite SFltb_zero. apply SFsub_negative; auto using Prim2SF_valid, Number_isNaN_false.
Qed.

End IEEE.

(** * Properties *)

(** ** The monad *)

Lemma bind_normal {A B} (m : M A) (k : A -> M B) g a g' :
  m g = (Normal a, g') -> (m ≫= k) g = k a g'.
Proof. intros H. unfold mbind, M_bind, bind. now rewrite H. Qed.

Lemma bind_throw {A B} (m : M A) (k : A -> M B) g e g' :
  m g = (Throw e, g') -> (m ≫= k) g = (Throw e, g').
Proof. intros H. unfold mbind, M_bind, bind. now rewrite H. Qed.

(** A computation that leaves the globals as they are. *)
Definition read_only {A} (m : M A) : Prop := forall g, snd (m g) = g.

Lemma read_only_ret {A} (a : A) : read_only (ret a).
Proof. now intros g. Qed.

Lemma read_only_throw {A} e : read_only (@throw A e).
Proof. now intros g. Qed.

Lemma read_only_lift {A} (c : completion A) : read_only (lift c).
Proof. now intros g. Qed.

Lemma read_only_defined {A} (o : option A) : read_only (defined o).
Proof. destruct o; [apply read_only_ret | apply read_only_throw]. Qed.

Lemma read_only_bind {A B} (m : M A) (k : A -> M B) :
  read_only m -> (forall a, read_only (k a)) -> read_only (m ≫= k).
Proof.
  intros Hm Hk g. unfold mbind, M_bind, bind.
  specialize (Hm g). destruct (m g) as [[a|e] g']; simpl in Hm; subst g'.
  - apply Hk.
  - reflexivity.
Qed.

Lemma read_only_get_session : read_only get_session.
Proof. intros g. unfold get_session. apply read_only_defined. Qed.

Lemma read_only_get_meta : read_only get_meta.
Proof. intros g. unfold get_meta. apply read_only_defined. Qed.

Lemma read_only_get_embeddings : read_only get_embeddings.
Proof. intros g. unfold get_embeddings. apply read_only_defined. Qed.

Create HintDb frame.
#[local] Hint Resolve read_only_ret read_only_throw read_only_lift
  read_only_defined read_only_get_session read_only_get_meta
  read_only_get_embeddings : frame.

Ltac frame := repeat (first [ apply read_only_bind; [| intros ?] | solve [auto with frame] ]).

Lemma read_only_compute_scores n query : read_only (compute_scores n query).
Proof.
  unfold compute_scores.
  generalize (seq 0 n), (ret (f32_new n) : M Float32Array), (read_only_ret (f32_new n)).
  intros l. induction l as [|i l IH]; intros acc Hacc; simpl; [assumption|].
  apply IH. frame.
Qed.

Lemma read_only_search query topK : read_only (search query topK).
Proof.
  unfold search. apply read_only_bind; [auto with frame | intros m].
  apply read_only_bind; [apply read_only_compute_scores | intros scores].
  apply read_only_ret.
Qed.

Lemma read_only_first_output res : read_only (first_output res).
Proof. unfold first_output. destruct (Object_values res); auto with frame. Qed.

Lemma read_only_embed sharp_raw buf : read_only (embed sharp_raw buf).
Proof.
  unfold embed. frame. apply read_only_first_output.
Qed.

Lemma read_only_run_call sharp_raw c : read_only (run_call sharp_raw c).
Proof.
  destruct c; simpl.
  - apply read_only_bind; [apply read_only_embed | auto with frame].
  - apply read_only_bind; [apply read_only_search | auto with frame].
  - apply read_only_bind; [apply read_only_embed | intros q].
    apply read_only_bind; [apply read_only_search | auto with frame].
Qed.

(** C9. No call made after startup changes the store: after any sequence
    of [embed] and [search] calls (alone or chained by the request
    handler), whatever they return or throw, the globals -- embedding
    matrix, metadata and session -- are what they were before. *)
Theorem store_never_mutated sharp_raw (calls : list call) (g : Globals) :
  run_calls sharp_raw calls g = g.
Proof.
  unfold run_calls. induction calls as [|c calls IH]; simpl; [reflexivity|].
  now rewrite read_only_run_call.
Qed.

(** ** Float32Array writes *)

Lemma f32_set_length a i v : length (f32_set a i v) = length a.
Proof. apply length_insert. Qed.

Lemma f32_new_length n : length (f32_new n) = n.
Proof. apply length_replicate. Qed.

(** A loop that writes [f i] at every index [i] of [l]. *)
Definition fill (f : nat -> number) (a : Float32Array) (l : list nat) : Float32Array :=
  foldl (fun a i => f32_set a i (f i)) a l.

Lemma fill_length f l : forall a, length (fill f a l) = length a.
Proof.
  induction l as [|i l IH]; intros a; [reflexivity|].
  change (fill f a (i :: l)) with (fill f (f32_set a i (f i)) l).
  now rewrite IH, f32_set_length.
Qed.

Lemma fill_lookup_notin f l : forall a i, i ∉ l -> fill f a l !! i = a !! i.
Proof.
  induction l as [|j l IH]; intros a i Hi; [reflexivity|].
  apply not_elem_of_cons in Hi as [Hij Hi].
  change (fill f a (j :: l)) with (fill f (f32_set a j (f j)) l).
  rewrite IH by assumption.
  unfold f32_set. now rewrite list_lookup_insert_ne.
Qed.

Lemma fill_lookup_in f l : forall a i,
  NoDup l -> i ∈ l -> i < length a -> fill f a l !! i = Some (fround (f i)).
Proof.
  induction l as [|j l IH]; intros a i Hnd Hi Hlen.
  - now apply elem_of_nil in Hi.
  - apply NoDup_cons in Hnd as [Hj Hnd].
    change (fill f a (j :: l)) with (fill f (f32_set a j (f j)) l).
    apply elem_of_cons in Hi as [->|Hi].
    + rewrite fill_lookup_notin by assumption.
      unfold f32_set. now rewrite list_lookup_insert_eq.
    + apply IH; [assumption..|]. now rewrite f32_set_length.
Qed.

(** ** The scores of a query *)

(** The array [search] fills: entry [i] is the dot product of the query
    and row [i], rounded to binary32. *)
Definition scores_of (query : list number) (emb : Float32Array) (n : nat) : Float32Array :=
  fill (dot_product query emb) (f32_new n) (seq 0 n).

Lemma scores_of_length query emb n : length (scores_of query emb n) = n.
Proof. unfold scores_of. now rewrite fill_length, f32_new_length. Qed.

Lemma scores_of_at query emb n i :
  i < n -> at_index (scores_of query emb n) i = fround (dot_product query emb i).
Proof.
  intros Hi. unfold at_index, f32_get, scores_of.
  rewrite fill_lookup_in; [reflexivity | apply NoDup_seq | | now rewrite f32_new_length].
  apply elem_of_seq. lia.
Qed.

Lemma compute_scores_defined g emb n query :
  embeddings g = Some emb ->
  compute_scores n query g = (Normal (scores_of query emb n), g).
Proof.
  intros He. unfold compute_scores, scores_of, fill.
  generalize (seq 0 n), (f32_new n). intros l.
  induction l as [|i l IH] using rev_ind; intros a; [reflexivity|].
  rewrite !foldl_snoc.
  erewrite bind_normal by apply IH.
  erewrite bind_normal by (unfold get_embeddings; rewrite He; reflexivity).
  reflexivity.
Qed.

(** ** The sort keeps every element *)

Section SortLength.
Context {A : Type} (comparefn : A -> A -> number).

Lemma extend_run_length d : forall l previous acc,
  length (extend_run comparefn d previous l acc).1
  + length (extend_run comparefn d previous l acc).2 = length acc + length l.
Proof.
  induction l as [|c l IH]; intros previous acc; simpl; [lia|].
  destruct (if d then _ else _); simpl; [lia|].
  rewrite IH. simpl. lia.
Qed.

Lemma CountAndMakeRun_length l :
  length (CountAndMakeRun comparefn l).1 + length (CountAndMakeRun comparefn l).2
  = length l.
Proof.
  destruct l as [|a0 [|a1 l]]; simpl; try lia.
  pose proof (extend_run_length (order_neg comparefn a1 a0) l a1 [a1; a0]) as H.
  destruct (extend_run _ _ _ _ _) as [acc rest]. simpl in *.
  destruct (order_neg comparefn a1 a0); rewrite ?length_reverse; lia.
Qed.

Lemma insert_pivot_length a pivot :
  length (insert_pivot comparefn a pivot) = S (length a).
Proof.
  unfold insert_pivot. rewrite length_app. simpl.
  rewrite length_take, length_drop. lia.
Qed.

Lemma BinaryInsertionSort_length rest : forall run,
  length (BinaryInsertionSort comparefn run rest) = length run + length rest.
Proof.
  induction rest as [|p rest IH]; intros run; simpl; [lia|].
  unfold BinaryInsertionSort in *. simpl. rewrite IH, insert_pivot_length. lia.
Qed.

Lemma sort_length l : length (sort comparefn l) = length l.
Proof.
  unfold sort. pose proof (CountAndMakeRun_length l) as H.
  destruct (CountAndMakeRun comparefn l) as [run rest]. simpl in H.
  now rewrite BinaryInsertionSort_length.
Qed.

End SortLength.

Lemma slice0_length {A} (l : list A) (k : Z) :
  (0 <= k)%Z -> length (slice0 l k) = Nat.min (Z.to_nat k) (length l).
Proof.
  intros Hk. unfold slice0.
  destruct (Z.ltb_spec k 0); [lia|].
  rewrite length_take. lia.
Qed.

Lemma ranked_length scores k :
  (0 <= k)%Z -> length (ranked scores k) = Nat.min (Z.to_nat k) (length scores).
Proof.
  intros Hk. unfold ranked.
  now rewrite slice0_length, sort_length, length_seq.
Qed.

(** What [search] returns once the catalog is loaded. *)
Lemma search_loaded g m emb query topK :
  meta g = Some m -> embeddings g = Some emb ->
  search query topK g =
    (Normal (map (result m (scores_of query emb (length m)))
               (ranked (scores_of query emb (length m)) (default 20%Z topK))), g).
Proof.
  intros Hm He. unfold search.
  erewrite bind_normal by (unfold get_meta; rewrite Hm; reflexivity).
  erewrite bind_normal by (apply compute_scores_defined; eassumption).
  reflexivity.
Qed.

(** ** Startup *)

(** The 16-bit word number [i] of the blob. *)
Definition half_at (bin : Buffer) (i : nat) : Z :=
  match bin !! (i * 2), bin !! (i * 2 + 1) with
  | Some first, Some last => (byte_val first + byte_val last * 2 ^ 8)%Z
  | _, _ => 0%Z
  end.

(** The matrix [init] builds for [n] rows. *)
Definition loaded_embeddings (bin : Buffer) (n : nat) : Float32Array :=
  fill (fun i => decode_half (half_at bin i)) (f32_new (n * 512)) (seq 0 (n * 512)).

Lemma readUInt16LE_in (bin : Buffer) i :
  i * 2 + 2 <= length bin -> readUInt16LE bin (i * 2) = Normal (half_at bin i).
Proof.
  intros H. unfold readUInt16LE, half_at.
  destruct (lookup_lt_is_Some_2 bin (i * 2)) as [b0 ->]; [lia|].
  destruct (lookup_lt_is_Some_2 bin (i * 2 + 1)) as [b1 ->]; [lia|].
  reflexivity.
Qed.

Lemma readUInt16LE_out (bin : Buffer) i :
  length bin < i * 2 + 2 -> readUInt16LE bin (i * 2) = Throw RangeError.
Proof.
  intros H. unfold readUInt16LE.
  rewrite (lookup_ge_None_2 bin (i * 2 + 1)) by lia.
  now destruct (bin !! (i * 2)).
Qed.

Section InitLoop.
Variables (bin : Buffer) (s : option InferenceSession) (m : option (list Row)).

Let body (i : nat) : M unit :=
  h ← lift (readUInt16LE bin (i * 2));
  a ← get_embeddings;
  set_embeddings (f32_set a i (decode_half h)).

Let st (a : Float32Array) : Globals :=
  {| session := s; meta := m; embeddings := Some a |}.

Lemma init_loop_normal count : forall i a,
  (i + count) * 2 <= length bin ->
  for_loop i count body (st a)
  = (Normal tt, st (fill (fun i => decode_half (half_at bin i)) a (seq i count))).
Proof.
  induction count as [|count IH]; intros i a H; [reflexivity|].
  cbn [for_loop seq].
  erewrite bind_normal; [apply IH; lia|].
  unfold body. erewrite bind_normal by (unfold lift; rewrite readUInt16LE_in by lia; reflexivity).
  erewrite bind_normal by reflexivity. reflexivity.
Qed.

Lemma init_loop_throw count : forall i a,
  0 < count -> length bin < (i + count) * 2 ->
  exists g, for_loop i count body (st a) = (Throw RangeError, g).
Proof.
  induction count as [|count IH]; intros i a Hc H; [lia|].
  cbn [for_loop].
  destruct (decide (i * 2 + 2 <= length bin)) as [Hin|Hout].
  - destruct count as [|count]; [lia|].
    destruct (IH (S i) (f32_set a i (decode_half (half_at bin i)))) as [g Hg]; [lia..|].
    exists g. erewrite bind_normal; [exact Hg|].
    unfold body. erewrite bind_normal by (unfold lift; rewrite readUInt16LE_in by lia; reflexivity).
    erewrite bind_normal by reflexivity. reflexivity.
  - exists (st a). erewrite bind_throw; [reflexivity|].
    unfold body. erewrite bind_throw; [reflexivity|].
    unfold lift. rewrite readUInt16LE_out by lia. reflexivity.
Qed.

End InitLoop.

(** The globals of a server whose startup succeeded. *)
Definition loaded (files : Files) : Globals :=
  {| session := Some (model_onnx files);
     meta := Some (vs_meta_json files);
     embeddings :=
       Some (loaded_embeddings (vs_embeddings_bin files) (length (vs_meta_json files))) |}.

Lemma init_normal files g :
  length (vs_meta_json files) * 512 * 2 <= length (vs_embeddings_bin files) ->
  init files g = (Normal tt, loaded files).
Proof.
  intros H. unfold init.
  erewrite bind_normal by reflexivity.
  erewrite bind_normal by reflexivity.
  erewrite bind_normal by reflexivity.
  erewrite bind_normal by reflexivity.
  unfold set_embeddings at 1. cbn [session meta embeddings].
  rewrite init_loop_normal by (simpl; lia). reflexivity.
Qed.

Lemma init_throw files g :
  length (vs_embeddings_bin files) < length (vs_meta_json files) * 512 * 2 ->
  exists g', init files g = (Throw RangeError, g').
Proof.
  intros H. unfold init.
  destruct (init_loop_throw (vs_embeddings_bin files) (Some (model_onnx files))
    (Some (vs_meta_json files)) (length (vs_meta_json files) * 512) 0
    (f32_new (length (vs_meta_json files) * 512))) as [g' Hg']; [lia..|].
  exists g'.
  erewrite bind_normal by reflexivity.
  erewrite bind_normal by reflexivity.
  erewrite bind_normal by reflexivity.
  erewrite bind_normal by reflexivity.
  exact Hg'.
Qed.

Lemma startup_cases files :
  startup files =
    if length (vs_embeddings_bin files) <? length (vs_meta_json files) * 512 * 2
    then NotStarted RangeError
    else Listening (loaded files).
Proof.
  unfold startup. destruct (Nat.ltb_spec (length (vs_embeddings_bin files))
    (length (vs_meta_json files) * 512 * 2)) as [H|H].
  - destruct (init_throw files undefined_globals H) as [g' ->]. reflexivity.
  - now rewrite init_normal.
Qed.

(** ** The sort permutes its input *)

Section SortPermutation.
Context {A : Type} (comparefn : A -> A -> number).

Lemma extend_run_Permutation d : forall l previous acc,
  (extend_run comparefn d previous l acc).1 ++ (extend_run comparefn d previous l acc).2
  ≡ₚ acc ++ l.
Proof.
  induction l as [|c l IH]; intros previous acc; simpl; [reflexivity|].
  destruct (if d then _ else _); simpl; [reflexivity|].
  rewrite IH. simpl. apply Permutation_middle.
Qed.

Lemma CountAndMakeRun_Permutation l :
  (CountAndMakeRun comparefn l).1 ++ (CountAndMakeRun comparefn l).2 ≡ₚ l.
Proof.
  destruct l as [|a0 [|a1 l]]; simpl; try reflexivity.
  pose proof (extend_run_Permutation (order_neg comparefn a1 a0) l a1 [a1; a0]) as H.
  destruct (extend_run _ _ _ _ _) as [acc rest]. simpl in *.
  assert (Hacc : (if order_neg comparefn a1 a0 then acc else reverse acc) ≡ₚ acc)
    by (destruct (order_neg comparefn a1 a0); [reflexivity | apply reverse_Permutation]).
  rewrite Hacc, H. apply perm_swap.
Qed.

Lemma insert_pivot_Permutation a pivot :
  insert_pivot comparefn a pivot ≡ₚ pivot :: a.
Proof.
  unfold insert_pivot. etransitivity; [symmetry; apply Permutation_middle|].
  now rewrite take_drop.
Qed.

Lemma BinaryInsertionSort_Permutation rest : forall run,
  BinaryInsertionSort comparefn run rest ≡ₚ run ++ rest.
Proof.
  induction rest as [|p rest IH]; intros run; simpl; [now rewrite app_nil_r|].
  unfold BinaryInsertionSort in *. simpl.
  rewrite IH, insert_pivot_Permutation. simpl. apply Permutation_middle.
Qed.

Lemma sort_Permutation l : sort comparefn l ≡ₚ l.
Proof.
  unfold sort. pose proof (CountAndMakeRun_Permutation l) as H.
  destruct (CountAndMakeRun comparefn l) as [run rest]. simpl in H.
  now rewrite BinaryInsertionSort_Permutation.
Qed.

End SortPermutation.

(** The whole ranking, before [slice] cuts it. *)
Definition ranking (scores : Float32Array) : list nat :=
  sort (by_score scores) (seq 0 (length scores)).

Lemma ranked_take scores k :
  (0 <= k)%Z -> ranked scores k = take (Z.to_nat k) (ranking scores).
Proof.
  intros Hk. unfold ranked, slice0, ranking.
  destruct (Z.ltb_spec k 0); [lia|].
  destruct (Z.min_spec k (Z.of_nat (length (sort (by_score scores) (seq 0 (length scores))))))
    as [[_ ->]|[Hle ->]]; [reflexivity|].
  rewrite Nat2Z.id, !take_ge; [reflexivity| | reflexivity]. lia.
Qed.

(** C1. For a catalog that startup loaded, any query and any integer
    [k >= 0], [search] returns normally the first [k] entries of a ranking
    that holds every row of the catalog exactly once: the result has
    exactly [min k n] entries for the [n] = [catalogSize()] rows, so
    [k = 0] gives the empty list and [k >= n] gives all rows, never an
    exception. *)
Theorem search_result_size files g (query : list number) (k : Z) :
  startup files = Listening g -> (0 <= k)%Z ->
  exists (scores : Float32Array) (order : list nat),
    order ≡ₚ seq 0 (length (vs_meta_json files)) /\
    search query (Some k) g
      = (Normal (map (result (vs_meta_json files) scores) (take (Z.to_nat k) order)), g) /\
    length (map (result (vs_meta_json files) scores) (take (Z.to_nat k) order))
      = Nat.min (Z.to_nat k) (length (vs_meta_json files)).
Proof.
  intros Hstart Hk. rewrite startup_cases in Hstart.
  destruct (_ <? _); [discriminate|]. injection Hstart as <-.
  set (m := vs_meta_json files).
  set (scores := scores_of query
    (loaded_embeddings (vs_embeddings_bin files) (length m)) (length m)).
  assert (Hlen : length scores = length m) by apply scores_of_length.
  exists scores, (ranking scores). split; [|split].
  - unfold ranking. rewrite sort_Permutation. now rewrite Hlen.
  - erewrite search_loaded by reflexivity. simpl. fold m scores.
    now rewrite ranked_take.
  - rewrite length_map, length_take. unfold ranking.
    rewrite sort_length, length_seq. lia.
Qed.

(** C7 (amended). Startup checks the blob only through the reads of the
    decoding loop: with fewer than [n * 512 * 2] bytes for [n] metadata
    rows the loop's out-of-range read throws a RangeError and the server
    never listens; with that many bytes or more startup succeeds, and the
    bytes past [n * 512 * 2] are never read. *)
Theorem startup_blob_size files :
  startup files =
    if length (vs_embeddings_bin files) <? length (vs_meta_json files) * 512 * 2
    then NotStarted RangeError
    else Listening (loaded files).
Proof. apply startup_cases. Qed.

(** ** embed *)

Definition feeds_of (data : Buffer) : list (string * Tensor) :=
  [("pixel_values"%string,
    {| tensor_type := "float32"; tensor_data := normalize_pixels pixels data;
       tensor_dims := [1; 3; 224; 224]%Z |})].

Lemma embed_run sharp_raw buf g data s res :
  sharp_raw buf = Normal data ->
  session g = Some s ->
  session_run s (feeds_of data) = Normal res ->
  embed sharp_raw buf g =
    match Object_values res with
    | t :: _ => (Normal (l2_normalize (tensor_data t)), g)
    | [] => (Throw TypeError, g)
    end.
Proof.
  intros Hd Hs Hr. unfold embed.
  erewrite bind_normal by (unfold lift; rewrite Hd; reflexivity).
  erewrite bind_normal by (unfold get_session; rewrite Hs; reflexivity).
  erewrite bind_normal by (unfold lift; fold (feeds_of data); rewrite Hr; reflexivity).
  unfold first_output. destruct (Object_values res); reflexivity.
Qed.

(** C6 (amended). The adapter names and validates no output key: it takes
    the first value of the model's result set, whatever its key, and
    normalizes it; it throws (a TypeError) only when the result set is
    empty. *)
Theorem embed_takes_first_output sharp_raw buf g data s res :
  sharp_raw buf = Normal data ->
  session g = Some s ->
  session_run s (feeds_of data) = Normal res ->
  embed sharp_raw buf g =
    match res with
    | (key, t) :: _ => (Normal (l2_normalize (tensor_data t)), g)
    | [] => (Throw TypeError, g)
    end.
Proof.
  intros Hd Hs Hr. rewrite (embed_run _ _ _ _ _ _ Hd Hs Hr).
  destruct res as [|[key t] res]; reflexivity.
Qed.

(** ** Division by a degenerate norm *)

Lemma div_zero_not_finite (x y : number) :
  is_zero y = true -> Number_isFinite (x / y)%float = false.
Proof.
  unfold is_zero, Number_isFinite. rewrite div_spec.
  destruct (Prim2SF y); try discriminate.
  now destruct (Prim2SF x) as [[]|[]| |[] ? ?]; destruct s.
Qed.

Lemma div_nan_is_nan (x y : number) :
  Number_isNaN y = true -> Number_isNaN (x / y)%float = true.
Proof.
  unfold Number_isNaN. rewrite div_spec.
  destruct (Prim2SF y); try discriminate.
  now destruct (Prim2SF x).
Qed.

Lemma div_infinity_zero_or_nan (x y : number) :
  Number_isFinite y = false -> Number_isNaN y = false ->
  is_zero (x / y)%float = true \/ Number_isNaN (x / y)%float = true.
Proof.
  unfold Number_isFinite, Number_isNaN, is_zero. rewrite div_spec.
  destruct (Prim2SF y); try discriminate; intros _ _.
  destruct (Prim2SF x); simpl; auto.
Qed.

Lemma l2_normalize_lookup (emb : list number) i :
  l2_normalize emb !! i = (fun v => v / l2_norm emb)%float <$> emb !! i.
Proof. unfold l2_normalize. apply list_lookup_fmap. Qed.

(** C5 (amended). Whatever raw vector the model returns, [embed] divides
    every component by the vector's L2 norm and returns the quotients; it
    makes no check of the norm and throws no error for a degenerate one:
    with a zero norm no component of the returned vector is finite (each is
    NaN or an infinity), with a NaN norm every component is NaN, and with
    an infinite norm every component is a zero or NaN. *)
Theorem embed_divides_by_norm sharp_raw buf g data s key t res :
  sharp_raw buf = Normal data ->
  session g = Some s ->
  session_run s (feeds_of data) = Normal ((key, t) :: res) ->
  let emb := tensor_data t in
  let norm := l2_norm emb in
  exists v : list number,
    embed sharp_raw buf g = (Normal v, g) /\
    length v = length emb /\
    (forall i x, emb !! i = Some x -> v !! i = Some (x / norm)%float) /\
    (is_zero norm = true -> forall y, y ∈ v -> Number_isFinite y = false) /\
    (Number_isNaN norm = true -> forall y, y ∈ v -> Number_isNaN y = true) /\
    (Number_isFinite norm = false -> Number_isNaN norm = false ->
       forall y, y ∈ v -> is_zero y = true \/ Number_isNaN y = true).
Proof.
  intros Hd Hs Hr emb norm. exists (l2_normalize emb).
  split; [|split; [|split; [|split; [|split]]]].
  - now rewrite (embed_run _ _ _ _ _ _ Hd Hs Hr).
  - unfold l2_normalize. apply length_map.
  - intros i x Hx. now rewrite l2_normalize_lookup, Hx.
  - intros Hz y Hy. apply list_elem_of_fmap in Hy as [x [-> _]].
    now apply div_zero_not_finite.
  - intros Hn y Hy. apply list_elem_of_fmap in Hy as [x [-> _]].
    now apply div_nan_is_nan.
  - intros Hf Hn y Hy. apply list_elem_of_fmap in Hy as [x [-> _]].
    now apply div_infinity_zero_or_nan.
Qed.

(** ** The tensor of an image *)

(** The value the loop stores for pixel [i] and channel [c], before the
    array rounds it to binary32. *)
Definition channel_value (data : Buffer) (i c : nat) : number :=
  ((buf_get data (i * 3 + c) / 255 - at_index MEAN c) / at_index STD c)%float.

Section NormalizePixels.
Variables (npix : nat) (data : Buffer).

Let inner (f : Float32Array) (i : nat) : Float32Array :=
  foldl (fun f c => f32_set f (c * npix + i) (channel_value data i c)) f (seq 0 3).

Lemma inner_length f i : length (inner f i) = length f.
Proof. unfold inner. simpl. now rewrite !f32_set_length. Qed.

Lemma inner_written f i c :
  length f = 3 * npix -> i < npix -> c < 3 ->
  inner f i !! (c * npix + i) = Some (fround (channel_value data i c)).
Proof.
  intros Hlen Hi Hc. unfold inner, f32_set. cbn [seq foldl].
  destruct c as [|[|[|c]]]; [| | |lia].
  - rewrite !list_lookup_insert_ne by lia.
    apply list_lookup_insert_eq. lia.
  - rewrite list_lookup_insert_ne by lia.
    apply list_lookup_insert_eq. rewrite length_insert. lia.
  - apply list_lookup_insert_eq. rewrite !length_insert. lia.
Qed.

Lemma inner_other f i k :
  (forall c, c < 3 -> k <> c * npix + i) -> inner f i !! k = f !! k.
Proof.
  intros Hk. unfold inner, f32_set. cbn [seq foldl].
  pose proof (Hk 0). pose proof (Hk 1). pose proof (Hk 2).
  rewrite !list_lookup_insert_ne by lia. reflexivity.
Qed.

Lemma outer_loop t :
  t <= npix ->
  length (foldl inner (f32_new (3 * npix)) (seq 0 t)) = 3 * npix /\
  forall c i, c < 3 -> i < t ->
    foldl inner (f32_new (3 * npix)) (seq 0 t) !! (c * npix + i)
    = Some (fround (channel_value data i c)).
Proof.
  induction t as [|t IH]; intros Ht.
  - split; [apply f32_new_length | lia].
  - destruct IH as [IHlen IHval]; [lia|].
    rewrite seq_S, foldl_snoc. simpl. split.
    + now rewrite inner_length.
    + intros c i Hc Hi. destruct (decide (i = t)) as [->|Hne].
      * apply inner_written; [assumption | lia | assumption].
      * rewrite inner_other; [apply IHval; [assumption | lia]|].
        intros c' Hc'. destruct c as [|[|[|c]]], c' as [|[|[|c']]]; lia.
Qed.

Lemma normalize_pixels_spec :
  length (normalize_pixels npix data) = 3 * npix /\
  forall c i, c < 3 -> i < npix ->
    normalize_pixels npix data !! (c * npix + i)
    = Some (fround (channel_value data i c)).
Proof. apply (outer_loop npix). lia. Qed.

End NormalizePixels.

(** C8. For the 224 x 224 x 3 bytes of a decoded image, the tensor has
    [3 * 224 * 224] elements, and the element of channel [c] at row [y] and
    column [x] -- index [c * 224 * 224 + y * 224 + x], channel-major and
    row-major within the channel -- is [(pixel / 255 - MEAN[c]) / STD[c]]
    computed in binary64 and stored in the Float32Array (rounded to
    binary32), where [pixel] is the byte of that pixel and channel and MEAN
    and STD are the constants of the source. *)
Theorem tensor_layout (data : Buffer) (c y x : nat) (pixel : byte) :
  length data = 224 * 224 * 3 ->
  c < 3 -> y < 224 -> x < 224 ->
  data !! ((y * 224 + x) * 3 + c) = Some pixel ->
  MEAN = [0.48145466; 0.4578275; 0.40821073]%float /\
  STD = [0.26862954; 0.26130258; 0.27577711]%float /\
  length (normalize_pixels pixels data) = 3 * 224 * 224 /\
  normalize_pixels pixels data !! (c * 224 * 224 + y * 224 + x)
  = Some (fround ((of_Z (byte_val pixel) / 255 - at_index MEAN c) / at_index STD c)%float).
Proof.
  intros _ Hc Hy Hx Hpix.
  destruct (normalize_pixels_spec pixels data) as [Hlen Hval].
  split; [reflexivity|]. split; [reflexivity|]. split.
  - rewrite Hlen. unfold pixels. lia.
  - replace (c * 224 * 224 + y * 224 + x) with (c * pixels + (y * 224 + x))
      by (unfold pixels; lia).
    rewrite Hval; [|assumption|unfold pixels; lia].
    unfold channel_value, buf_get. now rewrite Hpix.
Qed.

(** ** The half-float decoder *)

(** The real number a finite binary64 value stands for. *)
Definition exact_value (x : number) : option Q :=
  match Prim2SF x with
  | S754_zero _ => Some 0%Q
  | S754_finite s m e => Some ((if s then -1 else 1) * inject_Z (Zpos m) * 2 ^ e)%Q
  | _ => None
  end.

Definition has_value (x : number) (q : Q) : Prop :=
  exists v, exact_value x = Some v /\ (v == q)%Q.

Definition sign_bit (x : number) : bool :=
  match Prim2SF x with
  | S754_zero s | S754_infinity s | S754_finite s _ _ => s
  | S754_nan => false
  end.

(** The 16-bit word of sign [s], exponent [e] and mantissa [m]. *)
Definition half_word (s e m : Z) : Z := (s * 2 ^ 15 + e * 2 ^ 10 + m)%Z.

Definition value_is (x : number) (q : Q) : bool :=
  match exact_value x with Some v => Qeq_bool v q | None => false end.

Definition zrange (n : nat) : list Z := map Z.of_nat (seq 0 n).

(** The decoding rules, as a test of one word. *)
Definition half_check (s e m : Z) : bool :=
  let x := decode_half (half_word s e m) in
  let sgn := if (s =? 0)%Z then 1%Q else (-1)%Q in
  PrimFloat.Leibniz.eqb (fround x) x &&
  if (e =? 0)%Z then
    value_is x (sgn * 2 ^ (-14) * (inject_Z m / 1024))%Q
    && Bool.eqb (sign_bit x) (negb (s =? 0)%Z)
  else if (e =? 31)%Z then
    if (m =? 0)%Z
    then PrimFloat.Leibniz.eqb x (if (s =? 0)%Z then infinity else neg_infinity)
    else PrimFloat.Leibniz.eqb x nan
  else value_is x (sgn * 2 ^ (e - 15) * (1 + inject_Z m / 1024))%Q.

Lemma elem_of_zrange n z : (0 <= z < Z.of_nat n)%Z -> In z (zrange n).
Proof.
  intros Hz. unfold zrange. apply in_map_iff. exists (Z.to_nat z).
  split; [lia|]. apply in_seq. lia.
Qed.

Lemma value_is_has_value x q : value_is x q = true -> has_value x q.
Proof.
  unfold value_is, has_value. destruct (exact_value x) as [v|]; [|discriminate].
  intros H. exists v. split; [reflexivity|]. now apply Qeq_bool_iff.
Qed.

(** Every one of the 65536 words passes the test. *)
Lemma half_check_all :
  forallb (fun s => forallb (fun e => forallb (fun m => half_check s e m)
    (zrange 1024)) (zrange 32)) (zrange 2) = true.
Proof. vm_compute. reflexivity. Qed.

Lemma half_check_word s e m :
  (0 <= s < 2)%Z -> (0 <= e < 32)%Z -> (0 <= m < 1024)%Z -> half_check s e m = true.
Proof.
  intros Hs He Hm. pose proof half_check_all as H.
  rewrite forallb_forall in H. specialize (H s (elem_of_zrange 2 s Hs)).
  rewrite forallb_forall in H. specialize (H e (elem_of_zrange 32 e He)).
  rewrite forallb_forall in H. exact (H m (elem_of_zrange 1024 m Hm)).
Qed.

(** C2. The decoder is a total function of the 16-bit word.  For the word
    of sign bit [s], exponent [e] and mantissa [m] it returns: for
    [e = 0], the number of value [sign * 2^-14 * (m / 1024)] and of sign
    [s] (a signed zero when [m = 0]); for [e = 31], the infinity of sign
    [s] when [m = 0] and NaN otherwise; for any other [e], the number of
    value [sign * 2^(e - 15) * (1 + m / 1024)].  Each of these values is a
    binary32 value, so storing it in the Float32Array keeps it. *)
Theorem decode_half_value (s e m : Z) :
  (0 <= s < 2)%Z -> (0 <= e < 32)%Z -> (0 <= m < 1024)%Z ->
  let x := decode_half (half_word s e m) in
  let sign := if (s =? 0)%Z then 1%Q else (-1)%Q in
  fround x = x /\
  (e = 0%Z -> has_value x (sign * 2 ^ (-14) * (inject_Z m / 1024))%Q
              /\ sign_bit x = negb (s =? 0)%Z) /\
  (e = 31%Z -> m = 0%Z -> x = if (s =? 0)%Z then infinity else neg_infinity) /\
  (e = 31%Z -> m <> 0%Z -> x = nan) /\
  ((0 < e < 31)%Z -> has_value x (sign * 2 ^ (e - 15) * (1 + inject_Z m / 1024))%Q).
Proof.
  intros Hs He Hm x sign. pose proof (half_check_word s e m Hs He Hm) as H.
  unfold half_check in H. fold x sign in H.
  apply andb_true_iff in H as [Hfr H].
  apply FloatAxioms.Leibniz.eqb_spec in Hfr.
  split; [exact Hfr|].
  destruct (Z.eqb_spec e 0) as [He0|He0].
  - apply andb_true_iff in H as [Hv Hsg].
    apply value_is_has_value in Hv. apply Bool.eqb_prop in Hsg.
    repeat split; intros; try lia; assumption.
  - destruct (Z.eqb_spec e 31) as [He31|He31].
    + destruct (Z.eqb_spec m 0) as [Hm0|Hm0];
        apply FloatAxioms.Leibniz.eqb_spec in H;
        repeat split; intros; try lia; assumption.
    + apply value_is_has_value in H.
      repeat split; intros; try lia; assumption.
Qed.

(** ** The sort orders its input when the comparator is consistent

    [R] is the order the comparator stands for, ties broken by position:
    the sort compares a later element [x] of its input with an earlier one
    [y] only, and [order_neg x y] tells whether [x] goes before [y]. *)

Section SortSorted.
Context (comparefn : nat -> nat -> number) (R : relation nat) (dom : nat -> Prop).
Hypothesis R_trans : forall x y z, R x y -> R y z -> R x z.
Hypothesis neg_R : forall x y, dom x -> dom y -> y < x ->
  if order_neg comparefn x y then R x y else R y x.

Lemma StronglySorted_lookup (Q : relation nat) l :
  StronglySorted Q l ->
  forall i j x y, i < j -> l !! i = Some x -> l !! j = Some y -> Q x y.
Proof.
  induction 1 as [|a l HS IH HF]; intros i j x y Hij Hi Hj.
  - now rewrite lookup_nil in Hi.
  - destruct j as [|j]; [lia|]. simpl in Hj. destruct i as [|i].
    + injection Hi as <-. rewrite Forall_lookup in HF. eauto.
    + simpl in Hi. eapply IH; [|eassumption..]. lia.
Qed.

Lemma StronglySorted_flip_reverse l :
  StronglySorted (flip R) l -> StronglySorted R (reverse l).
Proof.
  induction 1 as [|a l HS IH HF]; [constructor|].
  rewrite reverse_cons. apply StronglySorted_app_2; [|assumption|repeat constructor].
  intros x1 x2 H1 H2. apply list_elem_of_singleton in H2 as ->.
  rewrite elem_of_reverse in H1. rewrite Forall_forall in HF. now apply HF.
Qed.

Lemma extend_run_sorted d : forall l previous acc0 acc rest,
  extend_run comparefn d previous l (previous :: acc0) = (acc, rest) ->
  Forall dom (previous :: l) ->
  StronglySorted lt (previous :: l) ->
  Forall (fun x => x <= previous) acc0 ->
  StronglySorted (if d then R else flip R) (previous :: acc0) ->
  StronglySorted (if d then R else flip R) acc /\
  StronglySorted lt rest /\
  (forall x y, x ∈ acc -> y ∈ rest -> x < y) /\
  Forall dom rest.
Proof.
  induction l as [|c l IH]; intros previous acc0 acc rest Hrun Hdom Hlt Hle Hsort.
  - injection Hrun as <- <-. repeat split; [assumption | constructor | | constructor].
    intros x y _ Hy. now apply elem_of_nil in Hy.
  - apply Forall_cons in Hdom as [Hdp Hdom].
    pose proof Hdom as Hdom'. apply Forall_cons in Hdom' as [Hdc Hdl].
    apply StronglySorted_cons in Hlt as [Hpl Hlt].
    pose proof Hpl as Hpl'. apply Forall_cons in Hpl' as [Hpc Hpl'].
    cbn [extend_run] in Hrun.
    pose proof (neg_R c previous Hdc Hdp Hpc) as Hneg.
    destruct (if d then negb (order_neg comparefn c previous)
              else order_neg comparefn c previous) eqn:Hbrk.
    + injection Hrun as <- <-. repeat split; [assumption.. | | assumption].
      intros x y Hx Hy. rewrite Forall_forall in Hpl, Hle.
      apply elem_of_cons in Hx as [->|Hx]; [now apply Hpl|].
      specialize (Hle x Hx). specialize (Hpl y Hy). lia.
    + apply (IH c (previous :: acc0)) in Hrun; [assumption | assumption | assumption | |].
      * apply Forall_cons. split; [lia|].
        eapply Forall_impl; [exact Hle|]. intros x Hx. simpl in Hx. lia.
      * apply StronglySorted_cons in Hsort as [Hhead Hsort'].
        apply StronglySorted_cons. split; [|apply StronglySorted_cons; auto].
        destruct d.
        -- destruct (order_neg comparefn c previous); [|discriminate].
           apply Forall_cons. split; [assumption|].
           eapply Forall_impl; [exact Hhead|]. intros z Hz. simpl in Hz. eauto.
        -- rewrite Hbrk in Hneg.
           apply Forall_cons. split; [assumption|].
           eapply Forall_impl; [exact Hhead|]. intros z Hz. unfold flip in *. eauto.
Qed.

Lemma CountAndMakeRun_sorted l run rest :
  CountAndMakeRun comparefn l = (run, rest) ->
  Forall dom l -> StronglySorted lt l ->
  StronglySorted R run /\ StronglySorted lt rest /\
  (forall x y, x ∈ run -> y ∈ rest -> x < y) /\ Forall dom rest.
Proof.
  intros Hrun Hdom Hlt.
  destruct l as [|a0 [|a1 l]].
  - injection Hrun as <- <-. repeat split; try constructor.
    intros x y Hx. now apply elem_of_nil in Hx.
  - injection Hrun as <- <-. repeat split; try (repeat constructor).
    intros x y _ Hy. now apply elem_of_nil in Hy.
  - cbn [CountAndMakeRun] in Hrun.
    destruct (extend_run comparefn (order_neg comparefn a1 a0) a1 l [a1; a0])
      as [acc rest'] eqn:Hext.
    injection Hrun as <- <-.
    apply Forall_cons in Hdom as [Hd0 Hdom].
    pose proof Hdom as Hdom'. apply Forall_cons in Hdom' as [Hd1 _].
    apply StronglySorted_cons in Hlt as [H0 Hlt].
    pose proof H0 as H0'. apply Forall_cons in H0' as [H01 _].
    pose proof (neg_R a1 a0 Hd1 Hd0 H01) as Hneg.
    apply extend_run_sorted in Hext; [|assumption|assumption| |].
    + destruct Hext as [Hs [Hr [Hx Hd]]]. repeat split; try assumption.
      * destruct (order_neg comparefn a1 a0); [assumption|].
        now apply StronglySorted_flip_reverse.
      * intros x y Hin. apply Hx.
        destruct (order_neg comparefn a1 a0); [assumption|].
        now rewrite elem_of_reverse in Hin.
    + repeat constructor. lia.
    + destruct (order_neg comparefn a1 a0); repeat constructor; assumption.
Qed.

Lemma insertion_point_spec a pivot :
  StronglySorted R a -> Forall dom a -> dom pivot -> Forall (fun x => x < pivot) a ->
  forall fuel left right,
    left <= right -> right <= length a -> right - left <= fuel ->
    (forall i x, i < left -> a !! i = Some x -> R x pivot) ->
    (forall i x, right <= i -> a !! i = Some x -> R pivot x) ->
    let p := insertion_point comparefn fuel pivot a left right in
    p <= length a /\
    (forall i x, i < p -> a !! i = Some x -> R x pivot) /\
    (forall i x, p <= i -> a !! i = Some x -> R pivot x).
Proof.
  intros Hs Hdom Hdp Hlt. rewrite Forall_lookup in Hdom, Hlt.
  induction fuel as [|fuel IH]; intros left right Hlr Hr Hfuel Hbefore Hafter.
  - assert (left = right) as -> by lia. simpl. repeat split; [lia|assumption..].
  - cbn [insertion_point]. destruct (Nat.ltb_spec left right) as [Hlt'|Hge].
    + set (mid := left + (right - left) / 2).
      assert (Hmid : left <= mid < right).
      { unfold mid. pose proof (Nat.Div0.div_lt_upper_bound (right - left) 2 (right - left)). lia. }
      destruct (lookup_lt_is_Some_2 a mid) as [x Hx]; [lia|]. rewrite Hx.
      pose proof (neg_R pivot x Hdp (Hdom _ _ Hx) (Hlt _ _ Hx)) as Hneg.
      destruct (order_neg comparefn pivot x).
      * apply IH; [lia | lia | lia | assumption |].
        intros i y Hi Hy. destruct (decide (i = mid)) as [->|Hne].
        -- rewrite Hx in Hy. now injection Hy as <-.
        -- apply R_trans with x; [assumption|].
           apply (StronglySorted_lookup R a Hs mid i); [lia | assumption..].
      * apply IH; [lia | lia | lia | | assumption].
        intros i y Hi Hy. destruct (decide (i = mid)) as [->|Hne].
        -- rewrite Hx in Hy. now injection Hy as <-.
        -- apply R_trans with x; [|assumption].
           apply (StronglySorted_lookup R a Hs i mid); [lia | assumption..].
    + assert (left = right) as -> by lia. repeat split; [lia|assumption..].
Qed.

Lemma insert_pivot_sorted a pivot :
  StronglySorted R a -> Forall dom a -> dom pivot -> Forall (fun x => x < pivot) a ->
  StronglySorted R (insert_pivot comparefn a pivot).
Proof.
  intros Hs Hdom Hdp Hlt. unfold insert_pivot.
  destruct (insertion_point_spec a pivot Hs Hdom Hdp Hlt (length a) 0 (length a))
    as [Hp [Hbefore Hafter]]; [lia | lia | lia | | |].
  { intros i x Hi. lia. }
  { intros i x Hi Hx. apply lookup_lt_Some in Hx. lia. }
  set (p := insertion_point comparefn (length a) pivot a 0 (length a)) in *.
  rewrite <- (take_drop p a) in Hs. apply StronglySorted_app in Hs as [Hcross [Ht Hd]].
  apply StronglySorted_app_2; [|assumption|].
  - intros x1 x2 H1 H2. apply elem_of_take in H1 as [i [Hi Hip]].
    apply elem_of_cons in H2 as [->|H2]; [eauto|].
    apply Hcross; [|assumption]. apply elem_of_take. eauto.
  - apply StronglySorted_cons. split; [|assumption].
    apply Forall_lookup. intros i x Hx. rewrite lookup_drop in Hx.
    apply (Hafter (p + i)); [lia | assumption].
Qed.

Lemma BinaryInsertionSort_sorted rest : forall run,
  StronglySorted R run -> Forall dom run -> Forall dom rest ->
  StronglySorted lt rest -> (forall x y, x ∈ run -> y ∈ rest -> x < y) ->
  StronglySorted R (BinaryInsertionSort comparefn run rest).
Proof.
  induction rest as [|pivot rest IH]; intros run Hs Hdr Hdom Hlt Hx; [assumption|].
  change (BinaryInsertionSort comparefn run (pivot :: rest))
    with (BinaryInsertionSort comparefn (insert_pivot comparefn run pivot) rest).
  apply Forall_cons in Hdom as [Hdp Hdom].
  apply StronglySorted_cons in Hlt as [Hpr Hlt].
  apply IH; [| |assumption|assumption|].
  - apply insert_pivot_sorted; [assumption..|].
    apply Forall_forall. intros x Hin. apply Hx; [assumption | left].
  - rewrite (insert_pivot_Permutation comparefn run pivot). now constructor.
  - intros x y Hin Hy. rewrite (insert_pivot_Permutation comparefn run pivot) in Hin.
    apply elem_of_cons in Hin as [->|Hin].
    + rewrite Forall_forall in Hpr. now apply Hpr.
    + apply Hx; [assumption | now right].
Qed.

Lemma sort_sorted l :
  Forall dom l -> StronglySorted lt l -> StronglySorted R (sort comparefn l).
Proof.
  intros Hdom Hlt. unfold sort.
  destruct (CountAndMakeRun comparefn l) as [run rest] eqn:Hrun.
  pose proof (CountAndMakeRun_Permutation comparefn l) as Hperm.
  rewrite Hrun in Hperm. simpl in Hperm.
  apply CountAndMakeRun_sorted in Hrun as [Hs [Hr [Hx Hd]]]; [|assumption..].
  apply BinaryInsertionSort_sorted; try assumption.
  rewrite <- Hperm in Hdom. now apply Forall_app in Hdom as [? _].
Qed.

End SortSorted.

(** ** The ranking of a query *)

(** No entry is NaN. *)
Definition no_nan (scores : Float32Array) : bool :=
  forallb (fun x => negb (Number_isNaN x)) scores.

(** Row [a] ranks before row [b]: its score is greater, or the scores are
    equal and [a] is the smaller index. *)
Definition ranks_before (scores : Float32Array) (a b : nat) : Prop :=
  (rank (at_index scores b) < rank (at_index scores a))%Z \/
  (rank (at_index scores a) = rank (at_index scores b) /\ a < b).

Lemma no_nan_at scores i :
  no_nan scores = true -> i < length scores ->
  Number_isNaN (at_index scores i) = false.
Proof.
  intros Hn Hi. unfold no_nan in Hn. rewrite forallb_forall in Hn.
  destruct (lookup_lt_is_Some_2 scores i Hi) as [x Hx].
  unfold at_index, f32_get. rewrite Hx. simpl.
  apply negb_true_iff, Hn, list_elem_of_In, list_elem_of_lookup. eauto.
Qed.

Lemma is_nan_Number_isNaN v : is_nan v = Number_isNaN v.
Proof.
  unfold is_nan, Number_isNaN. rewrite FloatAxioms.eqb_spec. unfold SFeqb.
  pose proof (Prim2SF_valid v) as Hv.
  destruct (Prim2SF v) as [s|s| |s m e]; try reflexivity; [now destruct s|].
  rewrite SFcompare_rank by (assumption || discriminate).
  now rewrite Z.compare_refl.
Qed.

Lemma SortCompare_negative {A} (comparefn : A -> A -> number) x y :
  order_neg comparefn x y = (comparefn x y <? 0)%float.
Proof.
  unfold order_neg, SortCompare. rewrite is_nan_Number_isNaN.
  destruct (Number_isNaN (comparefn x y)) eqn:Hnan; [|reflexivity].
  rewrite !FloatAxioms.ltb_spec. unfold Number_isNaN in Hnan.
  now destruct (Prim2SF (comparefn x y)).
Qed.

Lemma order_neg_by_score scores x y :
  Number_isNaN (at_index scores x) = false ->
  Number_isNaN (at_index scores y) = false ->
  order_neg (by_score scores) x y
  = (rank (at_index scores y) <? rank (at_index scores x))%Z.
Proof.
  intros Hx Hy. rewrite SortCompare_negative. unfold by_score.
  now apply sub_ltb_zero.
Qed.

Lemma ranking_sorted scores :
  no_nan scores = true -> StronglySorted (ranks_before scores) (ranking scores).
Proof.
  intros Hn. unfold ranking.
  apply sort_sorted with (dom := fun i => i < length scores).
  - unfold ranks_before. intros x y z. lia.
  - intros x y Hx Hy Hyx.
    rewrite order_neg_by_score by (apply no_nan_at; assumption).
    unfold ranks_before. destruct (Z.ltb_spec (rank (at_index scores y))
      (rank (at_index scores x))); lia.
  - apply Forall_forall. intros i Hi. apply elem_of_seq in Hi. lia.
  - clear. generalize 0. induction (length scores) as [|n IH]; intros k; [constructor|].
    simpl. constructor; [apply IH|].
    apply Forall_forall. intros i Hi. apply elem_of_seq in Hi. lia.
Qed.

Lemma ranking_dom scores i : i ∈ ranking scores -> i < length scores.
Proof.
  unfold ranking. rewrite sort_Permutation. intros Hi. apply elem_of_seq in Hi. lia.
Qed.

(** What the order says about two rows of a ranking without NaN. *)
Lemma ranks_before_scores scores a b :
  Number_isNaN (at_index scores a) = false ->
  Number_isNaN (at_index scores b) = false ->
  ranks_before scores a b ->
  (at_index scores b <=? at_index scores a)%float = true /\
  ((at_index scores a =? at_index scores b)%float = true -> a < b).
Proof.
  intros Ha Hb HR. rewrite leb_rank, eqb_rank by assumption.
  unfold ranks_before in HR. split.
  - apply Z.leb_le. lia.
  - intros Heq. apply Z.eqb_eq in Heq. lia.
Qed.

Lemma ranked_prefix scores topK :
  exists k, ranked scores topK = take k (ranking scores).
Proof. unfold ranked, slice0, ranking. eauto. Qed.

(** Two positions of the list [search] ranks, for scores without NaN. *)
Lemma ranked_pair scores topK p q i j :
  no_nan scores = true ->
  p < q -> ranked scores topK !! p = Some i -> ranked scores topK !! q = Some j ->
  (at_index scores j <=? at_index scores i)%float = true /\
  ((at_index scores i =? at_index scores j)%float = true -> i < j).
Proof.
  intros Hn Hpq Hi Hj. destruct (ranked_prefix scores topK) as [k Hk].
  rewrite Hk in Hi, Hj.
  apply lookup_take_Some in Hi as [Hi _]. apply lookup_take_Some in Hj as [Hj _].
  apply ranks_before_scores.
  - apply no_nan_at, ranking_dom; [assumption|]. apply list_elem_of_lookup. eauto.
  - apply no_nan_at, ranking_dom; [assumption|]. apply list_elem_of_lookup. eauto.
  - eapply (StronglySorted_lookup _ _ (ranking_sorted scores Hn)); eassumption.
Qed.

(** Of two rows with equal scores, the one of larger index is in the list
    [search] ranks only after the one of smaller index. *)
Lemma ranked_tie scores topK a b q :
  no_nan scores = true ->
  a < b -> (at_index scores a =? at_index scores b)%float = true ->
  ranked scores topK !! q = Some b ->
  exists p, p < q /\ ranked scores topK !! p = Some a.
Proof.
  intros Hn Hab Htie Hq. destruct (ranked_prefix scores topK) as [k Hk].
  rewrite Hk in *. apply lookup_take_Some in Hq as [Hq Hqk].
  assert (Hb : b < length scores).
  { apply ranking_dom, list_elem_of_lookup. eauto. }
  assert (Ha : a ∈ ranking scores).
  { unfold ranking. rewrite sort_Permutation. apply elem_of_seq. lia. }
  apply list_elem_of_lookup in Ha as [p Hp].
  rewrite eqb_rank in Htie by (apply no_nan_at; [assumption | lia]).
  apply Z.eqb_eq in Htie.
  destruct (Nat.lt_trichotomy p q) as [Hpq|[->|Hqp]].
  - exists p. split; [assumption|]. apply lookup_take_Some. split; [assumption | lia].
  - rewrite Hq in Hp. injection Hp as ->. lia.
  - pose proof (StronglySorted_lookup _ _ (ranking_sorted scores Hn) q p b a Hqp Hq Hp) as HR.
    unfold ranks_before in HR. lia.
Qed.

(** C3 (amended). When no score of the query is NaN, the sequence [search]
    returns is sorted by score in non-increasing order: each result is the
    record of a row, its score field the rendering by [toFixed(1)] of 100
    times the row's score, and the score of the row at each position is
    greater than or equal to the score of the row at every later position. *)
Theorem search_sorted_by_score files g (query : list number) (topK : option Z) :
  startup files = Listening g ->
  let m := vs_meta_json files in
  let scores :=
    scores_of query (loaded_embeddings (vs_embeddings_bin files) (length m)) (length m) in
  no_nan scores = true ->
  exists order : list nat,
    search query topK g = (Normal (map (result m scores) order), g) /\
    (forall i, score (result m scores i) = Str (toFixed1 (at_index scores i * 100)%float)) /\
    forall p q i j, p < q -> order !! p = Some i -> order !! q = Some j ->
      (at_index scores j <=? at_index scores i)%float = true.
Proof.
  intros Hstart m scores Hn. rewrite startup_cases in Hstart.
  destruct (_ <? _); [discriminate|]. injection Hstart as <-.
  exists (ranked scores (default 20%Z topK)). split; [|split].
  - now erewrite search_loaded by reflexivity.
  - reflexivity.
  - intros p q i j Hpq Hi Hj.
    now destruct (ranked_pair scores _ p q i j Hn Hpq Hi Hj).
Qed.

(** C10 (amended). When no score of the query is NaN, ties are broken by
    ascending catalog index: of two rows of the catalog with equal
    scores, [search] returns the one of smaller index first.  Two tied
    rows that are both returned come in the order of their indices, and
    the row of larger index is returned only if the row of smaller index
    is returned before it: when [topK] cuts between them, the row that is
    left out is the one of larger index. *)
Theorem search_ties_by_index files g (query : list number) (topK : option Z) :
  startup files = Listening g ->
  let m := vs_meta_json files in
  let scores :=
    scores_of query (loaded_embeddings (vs_embeddings_bin files) (length m)) (length m) in
  no_nan scores = true ->
  exists order : list nat,
    search query topK g = (Normal (map (result m scores) order), g) /\
    (forall p q i j, p < q -> order !! p = Some i -> order !! q = Some j ->
       (at_index scores i =? at_index scores j)%float = true -> i < j) /\
    (forall a b q, a < b ->
       (at_index scores a =? at_index scores b)%float = true ->
       order !! q = Some b ->
       exists p, p < q /\ order !! p = Some a).
Proof.
  intros Hstart m scores Hn. rewrite startup_cases in Hstart.
  destruct (_ <? _); [discriminate|]. injection Hstart as <-.
  exists (ranked scores (default 20%Z topK)). split; [|split].
  - now erewrite search_loaded by reflexivity.
  - intros p q i j Hpq Hi Hj.
    now destruct (ranked_pair scores _ p q i j Hn Hpq Hi Hj).
  - intros a b q Hab Htie Hq. exact (ranked_tie scores _ a b q Hn Hab Htie Hq).
Qed.

(** ** The matrix and the scores, read off the blob in one pass *)

(** The 16-bit little-endian words of a buffer, in order. *)
Fixpoint words16 (bin : Buffer) : list Z :=
  match bin with
  | first :: last :: rest => (byte_val first + byte_val last * 2 ^ 8)%Z :: words16 rest
  | _ => []
  end.

(** The dot product of a query and one row of 512 numbers. *)
Definition dot (query row : list number) : number :=
  foldl (fun d ab => d + ab.1 * ab.2)%float 0%float (zip (take 512 query) row).

(** Row [i] of a matrix of rows of 512 numbers. *)
Definition row_of (emb : Float32Array) (i : nat) : list number :=
  take 512 (drop (i * 512) emb).

Lemma words16_lookup : forall i (bin : Buffer),
  i * 2 + 2 <= length bin -> words16 bin !! i = Some (half_at bin i).
Proof.
  induction i as [|i IH]; intros [|b0 [|b1 rest]] Hlen; simpl in Hlen; try lia.
  - reflexivity.
  - cbn [words16]. rewrite lookup_cons_ne_0 by lia. simpl pred.
    rewrite IH by lia. unfold half_at.
    replace (S i * 2) with (S (S (i * 2))) by lia.
    replace (S (S (i * 2)) + 1) with (S (S (i * 2 + 1))) by lia.
    reflexivity.
Qed.

Lemma byte_val_range b : (0 <= byte_val b < 256)%Z.
Proof.
  unfold byte_val. pose proof (Byte.to_N_bounded b) as H. lia.
Qed.

Lemma half_at_range (bin : Buffer) i : (0 <= half_at bin i < 65536)%Z.
Proof.
  unfold half_at. destruct (bin !! (i * 2)) as [b0|]; [|lia].
  destruct (bin !! (i * 2 + 1)) as [b1|]; [|lia].
  pose proof (byte_val_range b0). pose proof (byte_val_range b1). lia.
Qed.

(** Every value of the decoder is a binary32 value. *)
Lemma half_word_fields h :
  (0 <= h < 65536)%Z ->
  half_word (h / 32768) (h / 1024 mod 32) (h mod 1024) = h /\
  (0 <= h / 32768 < 2)%Z /\ (0 <= h / 1024 mod 32 < 32)%Z /\ (0 <= h mod 1024 < 1024)%Z.
Proof.
  intros Hh. unfold half_word. change (2 ^ 15)%Z with 32768%Z. change (2 ^ 10)%Z with 1024%Z.
  pose proof (Z.div_mod h 1024 ltac:(lia)) as H1.
  pose proof (Z.div_mod (h / 1024) 32 ltac:(lia)) as H2.
  pose proof (Z.mod_pos_bound h 1024 ltac:(lia)).
  pose proof (Z.mod_pos_bound (h / 1024) 32 ltac:(lia)).
  assert (H3 : (h / 1024 / 32 = h / 32768)%Z) by (rewrite Z.div_div by lia; reflexivity).
  rewrite H3 in H2.
  assert (0 <= h / 32768 < 2)%Z
    by (split; [apply Z.div_pos; lia | apply Z.div_lt_upper_bound; lia]).
  lia.
Qed.

Lemma decode_half_fround h :
  (0 <= h < 65536)%Z -> fround (decode_half h) = decode_half h.
Proof.
  intros Hh. destruct (half_word_fields h Hh) as [Hw [Hs [He Hm]]].
  pose proof (half_check_word _ _ _ Hs He Hm) as H.
  unfold half_check in H. rewrite Hw in H.
  apply andb_true_iff in H as [H _]. now apply FloatAxioms.Leibniz.eqb_spec.
Qed.

Lemma fill_map f n :
  fill f (f32_new n) (seq 0 n) = map (fun i => fround (f i)) (seq 0 n).
Proof.
  apply list_eq. intros i. destruct (decide (i < n)) as [Hi|Hi].
  - rewrite fill_lookup_in;
      [|apply NoDup_seq|apply elem_of_seq; lia|now rewrite f32_new_length].
    rewrite list_lookup_fmap, lookup_seq_lt by assumption. reflexivity.
  - rewrite !lookup_ge_None_2; [reflexivity| |].
    + rewrite length_map, length_seq. lia.
    + rewrite fill_length, f32_new_length. lia.
Qed.

(** The matrix [init] builds is the decoded words of the blob, one entry
    per word and in order: the Float32Array keeps every decoded value. *)
Lemma loaded_embeddings_decoded (bin : Buffer) n :
  n * 512 * 2 <= length bin ->
  loaded_embeddings bin n = map decode_half (take (n * 512) (words16 bin)).
Proof.
  intros Hlen. unfold loaded_embeddings. rewrite fill_map.
  apply list_eq. intros i. destruct (decide (i < n * 512)) as [Hi|Hi].
  - rewrite list_lookup_fmap, lookup_seq_lt by assumption.
    rewrite list_lookup_fmap, lookup_take_lt, words16_lookup by lia.
    simpl. now rewrite decode_half_fround by apply half_at_range.
  - rewrite list_lookup_fmap, lookup_seq_ge by lia.
    now rewrite list_lookup_fmap, lookup_take_ge by lia.
Qed.

Lemma dot_product_zip (query emb : list number) off : forall k start acc,
  start + k <= length query -> off + start + k <= length emb ->
  foldl (fun dot j => dot + at_index query j * at_index emb (off + j))%float
    acc (seq start k)
  = foldl (fun d ab => d + ab.1 * ab.2)%float acc
      (zip (take k (drop start query)) (take k (drop (off + start) emb))).
Proof.
  induction k as [|k IH]; intros start acc Hq He; [reflexivity|].
  destruct (lookup_lt_is_Some_2 query start) as [x Hx]; [lia|].
  destruct (lookup_lt_is_Some_2 emb (off + start)) as [y Hy]; [lia|].
  rewrite (drop_S _ _ _ Hx), (drop_S _ _ _ Hy). cbn [seq take zip zip_with foldl].
  rewrite IH by lia.
  unfold at_index, f32_get. rewrite Hx, Hy. simpl.
  now replace (off + S start) with (S (off + start)) by lia.
Qed.

(** The loop of lines 64-65 is the dot product of the query's first 512
    numbers and row [i]. *)
Lemma dot_product_row (query emb : list number) i :
  512 <= length query -> (i + 1) * 512 <= length emb ->
  dot_product query emb i = dot query (row_of emb i).
Proof.
  intros Hq He. unfold dot_product, dot, row_of.
  rewrite (dot_product_zip query emb (i * 512) 512 0) by lia.
  rewrite drop_0. now replace (i * 512 + 0) with (i * 512) by lia.
Qed.

Lemma scores_of_rows (query emb : list number) n :
  512 <= length query -> n * 512 <= length emb ->
  scores_of query emb n = map (fun i => fround (dot query (row_of emb i))) (seq 0 n).
Proof.
  intros Hq He. unfold scores_of. rewrite fill_map.
  apply map_ext_in. intros i Hi. apply in_seq in Hi.
  rewrite dot_product_row; [reflexivity | assumption | lia].
Qed.

(** The scores of a query against the catalog of [files], computed from
    the blob without the arrays in between. *)
Definition catalog_scores (files : Files) (query : list number) : list number :=
  let n := length (vs_meta_json files) in
  let emb := map decode_half (take (n * 512) (words16 (vs_embeddings_bin files))) in
  map (fun i => fround (dot query (row_of emb i))) (seq 0 n).

Lemma words16_length : forall n (bin : Buffer),
  n * 2 <= length bin -> n <= length (words16 bin).
Proof.
  induction n as [|n IH]; intros [|b0 [|b1 rest]] Hlen; simpl in *; try lia.
  specialize (IH rest). lia.
Qed.

Lemma scores_of_catalog files (query : list number) :
  length (vs_meta_json files) * 512 * 2 <= length (vs_embeddings_bin files) ->
  512 <= length query ->
  scores_of query
    (loaded_embeddings (vs_embeddings_bin files) (length (vs_meta_json files)))
    (length (vs_meta_json files))
  = catalog_scores files query.
Proof.
  intros Hlen Hq. unfold catalog_scores.
  rewrite loaded_embeddings_decoded by assumption.
  apply scores_of_rows; [assumption|].
  rewrite length_map, length_take.
  pose proof (words16_length (length (vs_meta_json files) * 512) (vs_embeddings_bin files)).
  lia.
Qed.

(** [search] on a loaded catalog, from the scores computed in one pass. *)
Lemma search_catalog files (query : list number) topK scores :
  (length (vs_embeddings_bin files) <? length (vs_meta_json files) * 512 * 2) = false ->
  (512 <=? length query) = true ->
  catalog_scores files query = scores ->
  startup files = Listening (loaded files) /\
  scores_of query
    (loaded_embeddings (vs_embeddings_bin files) (length (vs_meta_json files)))
    (length (vs_meta_json files)) = scores /\
  search query topK (loaded files)
  = (Normal (map (result (vs_meta_json files) scores) (ranked scores (default 20%Z topK))),
     loaded files).
Proof.
  intros Hlen Hq <-. apply Nat.ltb_ge in Hlen. apply Nat.leb_le in Hq.
  split; [|split].
  - rewrite startup_cases. now destruct (Nat.ltb_spec (length (vs_embeddings_bin files))
      (length (vs_meta_json files) * 512 * 2)); [lia|].
  - now apply scores_of_catalog.
  - erewrite search_loaded by reflexivity. now rewrite scores_of_catalog.
Qed.

(** ** The catalog as loaded, and the scores read off it *)

(** X1. After a successful startup the matrix has [n * 512] entries for
    the [n] metadata rows, and entry [i] is exactly the value that lines
    40-43 compute for the 16-bit little-endian word at byte [2 * i] of the
    blob: storing it in the Float32Array rounds nothing away. *)
Theorem init_stores_decoded_words files g :
  startup files = Listening g ->
  exists emb : Float32Array,
    embeddings g = Some emb /\
    length emb = length (vs_meta_json files) * 512 /\
    forall i, i < length (vs_meta_json files) * 512 ->
      exists first last,
        vs_embeddings_bin files !! (i * 2) = Some first /\
        vs_embeddings_bin files !! (i * 2 + 1) = Some last /\
        emb !! i = Some (decode_half (byte_val first + byte_val last * 2 ^ 8)).
Proof.
  intros Hstart. rewrite startup_cases in Hstart.
  destruct (Nat.ltb_spec (length (vs_embeddings_bin files))
    (length (vs_meta_json files) * 512 * 2)) as [|Hlen]; [discriminate|].
  injection Hstart as <-. eexists. split; [reflexivity|].
  rewrite loaded_embeddings_decoded by assumption.
  pose proof (words16_length (length (vs_meta_json files) * 512) (vs_embeddings_bin files)).
  split; [rewrite length_map, length_take; lia|].
  intros i Hi.
  destruct (lookup_lt_is_Some_2 (vs_embeddings_bin files) (i * 2)) as [first Hf]; [lia|].
  destruct (lookup_lt_is_Some_2 (vs_embeddings_bin files) (i * 2 + 1)) as [last Hl]; [lia|].
  exists first, last. split; [assumption|]. split; [assumption|].
  rewrite list_lookup_fmap, lookup_take_lt, words16_lookup by lia.
  unfold half_at. now rewrite Hf, Hl.
Qed.

(** X2. On a server that is listening, for a query of at least 512
    numbers, the score of row [i] is the sum over [j < 512] of
    [query[j] * embeddings[i * 512 + j]], accumulated from [0] in that
    order in binary64 and then rounded to binary32 by the Float32Array.
    What [search] returns is [slice(0, topK)] of the rows in some order,
    each row with the rendering by [toFixed(1)] of 100 times this score
    of its own. *)
Theorem search_scores_rows files g (query : list number) topK :
  startup files = Listening g -> 512 <= length query ->
  exists (emb scores : Float32Array) (order : list nat),
    embeddings g = Some emb /\
    scores = map (fun i => fround (dot query (row_of emb i)))
               (seq 0 (length (vs_meta_json files))) /\
    order ≡ₚ seq 0 (length (vs_meta_json files)) /\
    search query topK g
    = (Normal (map (result (vs_meta_json files) scores)
                 (slice0 order (default 20%Z topK))), g) /\
    forall i, score (result (vs_meta_json files) scores i)
              = Str (toFixed1 (at_index scores i * 100)%float).
Proof.
  intros Hstart Hq. rewrite startup_cases in Hstart.
  destruct (Nat.ltb_spec (length (vs_embeddings_bin files))
    (length (vs_meta_json files) * 512 * 2)) as [|Hlen]; [discriminate|].
  injection Hstart as <-.
  set (m := vs_meta_json files).
  set (emb := loaded_embeddings (vs_embeddings_bin files) (length m)).
  assert (Hs : scores_of query emb (length m)
               = map (fun i => fround (dot query (row_of emb i))) (seq 0 (length m))).
  { apply scores_of_rows; [assumption|].
    unfold emb, loaded_embeddings. now rewrite fill_length, f32_new_length. }
  exists emb, (scores_of query emb (length m)), (ranking (scores_of query emb (length m))).
  split; [reflexivity|]. split; [exact Hs|]. split; [|split].
  - unfold ranking. now rewrite sort_Permutation, scores_of_length.
  - now erewrite search_loaded by reflexivity.
  - reflexivity.
Qed.

Lemma dot_take (query row : list number) : dot (take 512 query) row = dot query row.
Proof. unfold dot. now rewrite take_take, Nat.min_id. Qed.

(** X3. On a server that is listening, [search] reads only the first 512
    entries of a query that has at least that many: whatever follows
    them changes nothing in the result. *)
Theorem search_reads_512_entries files g (query : list number) topK :
  startup files = Listening g -> 512 <= length query ->
  search query topK g = search (take 512 query) topK g.
Proof.
  intros Hstart Hq. rewrite startup_cases in Hstart.
  destruct (Nat.ltb_spec (length (vs_embeddings_bin files))
    (length (vs_meta_json files) * 512 * 2)) as [|Hlen]; [discriminate|].
  injection Hstart as <-.
  erewrite !search_loaded by reflexivity.
  rewrite !scores_of_catalog by (rewrite ?length_take; lia).
  assert (catalog_scores files (take 512 query) = catalog_scores files query) as ->;
    [|reflexivity].
  unfold catalog_scores. apply map_ext. intros i. now rewrite dot_take.
Qed.

(** ** NaN scores *)

Lemma add_nan_r (x : number) : (x + nan)%float = nan.
Proof.
  apply Prim2SF_inj. rewrite add_spec.
  change (Prim2SF nan) with S754_nan. now destruct (Prim2SF x) as [[]|[]| |[] ? ?].
Qed.

Lemma add_nan_l (x : number) : (nan + x)%float = nan.
Proof.
  apply Prim2SF_inj. rewrite add_spec.
  change (Prim2SF nan) with S754_nan. now destruct (Prim2SF x).
Qed.

Lemma mul_nan_l (x : number) : (nan * x)%float = nan.
Proof.
  apply Prim2SF_inj. rewrite mul_spec.
  change (Prim2SF nan) with S754_nan. now destruct (Prim2SF x).
Qed.

Lemma foldl_nan {A} (f : A -> number) l :
  foldl (fun d j => d + f j)%float nan l = nan.
Proof. induction l as [|j l IH]; simpl; [reflexivity|]. now rewrite add_nan_l. Qed.

Lemma foldl_hits_nan (t : nat -> number) l1 j l2 acc :
  t j = nan -> foldl (fun d j => d + t j)%float acc (l1 ++ j :: l2) = nan.
Proof. intros H. rewrite foldl_app. simpl. rewrite H, add_nan_r. apply foldl_nan. Qed.

(** A query that ends before index 512 makes every dot product NaN. *)
Lemma dot_product_short (query emb : list number) i :
  length query < 512 -> dot_product query emb i = nan.
Proof.
  intros Hq. unfold dot_product.
  assert (seq 0 512
          = seq 0 (length query) ++ length query :: seq (S (length query)) (511 - length query))
    as ->.
  { transitivity (seq 0 (length query + S (511 - length query))); [f_equal; lia|].
    now rewrite seq_app. }
  apply (foldl_hits_nan (fun j => at_index query j * at_index emb (i * 512 + j))%float).
  unfold at_index at 1, f32_get. rewrite lookup_ge_None_2 by lia. apply mul_nan_l.
Qed.

Lemma scores_of_short (query emb : list number) n :
  length query < 512 -> scores_of query emb n = replicate n nan.
Proof.
  intros Hq. unfold scores_of. rewrite fill_map.
  apply list_eq. intros i. rewrite list_lookup_fmap.
  destruct (decide (i < n)) as [Hi|Hi].
  - rewrite lookup_seq_lt, lookup_replicate_2 by assumption. simpl.
    now rewrite dot_product_short.
  - rewrite lookup_seq_ge by lia. symmetry. apply lookup_replicate_None. lia.
Qed.

Section SortNeverNegative.
Context {A : Type} (comparefn : A -> A -> number).
Hypothesis never_negative : forall x y, order_neg comparefn x y = false.

Lemma extend_run_whole : forall l previous acc,
  extend_run comparefn false previous l acc = (reverse l ++ acc, []).
Proof.
  induction l as [|current l IH]; intros previous acc; simpl; [reflexivity|].
  rewrite never_negative, IH, reverse_cons, <- app_assoc. reflexivity.
Qed.

(** A comparator that never answers a negative number leaves the array
    in the order it had. *)
Lemma sort_never_negative l : sort comparefn l = l.
Proof.
  unfold sort, CountAndMakeRun. destruct l as [|x [|y l]]; [reflexivity..|].
  rewrite never_negative, extend_run_whole.
  unfold BinaryInsertionSort. cbn [foldl].
  rewrite reverse_app, reverse_involutive. reflexivity.
Qed.

End SortNeverNegative.

Lemma at_index_nan n i : at_index (replicate n nan) i = nan.
Proof.
  unfold at_index, f32_get. destruct (decide (i < n)).
  - now rewrite lookup_replicate_2.
  - assert (replicate n nan !! i = None) as -> by (apply lookup_replicate_None; lia).
    reflexivity.
Qed.

Lemma ranked_nan n topK : ranked (replicate n nan) topK = slice0 (seq 0 n) topK.
Proof.
  unfold ranked. rewrite length_replicate, sort_never_negative; [reflexivity|].
  intros x y. unfold order_neg, SortCompare, by_score. now rewrite !at_index_nan.
Qed.

(** X4. On a server that is listening, a query of fewer than 512 numbers
    raises no exception: the entries it lacks are [undefined], every
    score is NaN, the comparator never orders two rows, and [search]
    returns the rows of [slice(0, topK)] in catalog order, each with the
    score "NaN". *)
Theorem search_short_query files g (query : list number) topK :
  startup files = Listening g -> length query < 512 ->
  let m := vs_meta_json files in
  let scores := replicate (length m) nan in
  search query topK g
  = (Normal (map (result m scores) (slice0 (seq 0 (length m)) (default 20%Z topK))), g) /\
  forall i, score (result m scores i) = Str "NaN".
Proof.
  intros Hstart Hq m scores. rewrite startup_cases in Hstart.
  destruct (_ <? _); [discriminate|]. injection Hstart as <-. split.
  - erewrite search_loaded by reflexivity.
    rewrite scores_of_short by assumption. now rewrite ranked_nan.
  - intros i. unfold result, scores. cbn [score]. now rewrite at_index_nan.
Qed.

(** ** A negative [topK] *)

(** X5. On a server that is listening, a negative [topK] raises no
    exception either: [slice(0, topK)] then counts from the end, and
    [search(query, topK)] returns what [search(query, n)] returns for the
    [n] rows of the catalog -- the whole ranking -- without its last
    [-topK] results, nothing when [-topK >= n]. *)
Theorem search_negative_topK files g (query : list number) (k : Z) :
  startup files = Listening g -> (k < 0)%Z ->
  let n := length (vs_meta_json files) in
  exists ranking : list RankedResult,
    search query (Some (Z.of_nat n)) g = (Normal ranking, g) /\
    length ranking = n /\
    search query (Some k) g = (Normal (take (n - Z.to_nat (- k)) ranking), g).
Proof.
  intros Hstart Hk n. rewrite startup_cases in Hstart.
  destruct (_ <? _); [discriminate|]. injection Hstart as <-.
  set (m := vs_meta_json files) in *.
  set (scores := scores_of query
    (loaded_embeddings (vs_embeddings_bin files) (length m)) (length m)).
  assert (Hsort : length (ranking scores) = n).
  { unfold ranking. rewrite sort_length, length_seq. apply scores_of_length. }
  exists (map (result m scores) (ranking scores)). split; [|split].
  - erewrite search_loaded by reflexivity.
    change (default 20%Z (Some (Z.of_nat n))) with (Z.of_nat n). fold m. fold scores.
    rewrite ranked_take by lia. rewrite Nat2Z.id, take_ge by lia. reflexivity.
  - now rewrite length_map.
  - erewrite search_loaded by reflexivity. change (default 20%Z (Some k)) with k.
    fold m. fold scores. unfold ranked, slice0. fold (ranking scores). rewrite Hsort.
    destruct (Z.ltb_spec k 0); [|lia].
    replace (Z.to_nat (Z.max (Z.of_nat n + k) 0)) with (n - Z.to_nat (- k)) by lia.
    now rewrite fmap_take.
Qed.

(** ** A raw image that is too short *)

Lemma channel_value_missing (data : Buffer) i c :
  c < 3 -> length data <= i * 3 + c -> fround (channel_value data i c) = nan.
Proof.
  intros Hc Hlen. unfold channel_value, buf_get.
  rewrite lookup_ge_None_2 by assumption.
  destruct c as [|[|[|c]]]; [reflexivity..|lia].
Qed.

(** X6. [embed] does not check how many bytes the image decoder returned:
    when the raw data ends before the byte of a pixel and channel (as
    with fewer than three channels), the tensor still has
    [3 * 224 * 224] entries and the entry of that pixel and channel is
    NaN. *)
Theorem tensor_missing_byte (data : Buffer) (c y x : nat) :
  c < 3 -> y < 224 -> x < 224 ->
  length data <= (y * 224 + x) * 3 + c ->
  length (normalize_pixels pixels data) = 3 * 224 * 224 /\
  normalize_pixels pixels data !! (c * 224 * 224 + y * 224 + x) = Some nan.
Proof.
  intros Hc Hy Hx Hlen.
  destruct (normalize_pixels_spec pixels data) as [Hl Hval]. split.
  - rewrite Hl. unfold pixels. lia.
  - replace (c * 224 * 224 + y * 224 + x) with (c * pixels + (y * 224 + x))
      by (unfold pixels; lia).
    rewrite Hval; [|assumption|unfold pixels; lia].
    now rewrite channel_value_missing.
Qed.

(** ** The request handler *)

Lemma prefix_app a : forall s,
  String.prefix a s = true <-> exists t, s = (a ++ t)%string.
Proof.
  induction a as [|c a IH]; intros s.
  - split; [intros _; now exists s | intros _; now destruct s].
  - destruct s as [|d s]; simpl.
    + split; [discriminate | intros [t Ht]; discriminate].
    + destruct (ascii_dec c d) as [->|Hne].
      * rewrite IH. split; intros [t Ht]; exists t; [now rewrite Ht | now injection Ht].
      * split; [discriminate | intros [t Ht]; injection Ht; congruence].
Qed.

Lemma getHeader_set_header_ne name name' value hs :
  name <> name' -> getHeader name (set_header name' value hs) = getHeader name hs.
Proof.
  intros Hne. induction hs as [|[n v] hs IH]; simpl.
  - destruct (String.eqb_spec name' name); congruence.
  - destruct (String.eqb_spec n name') as [->|H]; simpl.
    + destruct (String.eqb_spec name' name); congruence.
    + now rewrite IH.
Qed.

Lemma getHeader_set_header_eq name value hs :
  getHeader name (set_header name value hs) = Some value.
Proof.
  induction hs as [|[n v] hs IH]; simpl.
  - now rewrite String.eqb_refl.
  - destruct (String.eqb_spec n name) as [->|H]; simpl.
    + now rewrite String.eqb_refl.
    + destruct (String.eqb_spec n name); [contradiction | exact IH].
Qed.

(** The header that lines 73-74 set, or not. *)
Lemma cors_allow_origin req :
  getHeader "Access-Control-Allow-Origin" (headers (cors req new_response))
  = if existsb (fun a => startsWith (or_empty (headers_origin req)) a) ALLOWED
    then Some (or_empty (headers_origin req)) else None.
Proof. unfold cors. destruct (existsb _ _); reflexivity. Qed.

Lemma cors_content_type req :
  getHeader "Content-Type" (headers (cors req new_response)) = None.
Proof. unfold cors. destruct (existsb _ _); reflexivity. Qed.

Lemma cors_statusCode req res : statusCode (cors req res) = statusCode res.
Proof. unfold cors. destruct (existsb _ _); reflexivity. Qed.

(** Reads the status and the body off a response of the handler. *)
Ltac status :=
  cbn [statusCode sent headers end_with setHeader set_statusCode];
  rewrite ?cors_statusCode; cbn [statusCode new_response].

Lemma read_only_try_catch {A} (body : M A) (handler : exn -> M A) :
  read_only body -> (forall e, read_only (handler e)) -> read_only (try_catch body handler).
Proof.
  intros Hb Hh g. unfold try_catch.
  specialize (Hb g). destruct (body g) as [[a|e] g']; simpl in Hb; subst g'.
  - reflexivity.
  - apply Hh.
Qed.

(** Case analysis on the next route test of the handler. *)
Ltac route :=
  match goal with
  | |- context [if ?b then _ else _] =>
      match b with andb _ _ => destruct b end
  end.

Ltac route_in H :=
  match type of H with
  | context [if ?b then _ else _] =>
      match b with andb _ _ => destruct b end
  end.

Lemma read_only_handler sharp_raw path_join req :
  read_only (handler sharp_raw path_join req).
Proof.
  unfold handler.
  destruct (_ =? _)%string; [apply read_only_ret|].
  route; [apply read_only_ret|].
  route; [apply read_only_bind; [apply read_only_get_meta | intros m; apply read_only_ret]|].
  route; [|apply read_only_ret].
  apply read_only_bind; [apply read_only_lift|intros [chunks|]]; [|apply read_only_ret].
  apply read_only_try_catch; [|intros e; apply read_only_ret].
  apply read_only_bind; [apply read_only_embed|intros query].
  apply read_only_bind; [apply read_only_search|intros results].
  apply read_only_ret.
Qed.

(** The loop of line 87 against the size of the whole body. *)
Lemma read_body_total incoming failure : forall chunks size,
  (size <= 10000000)%Z ->
  read_body incoming failure chunks size
  = if (10000000 <? size + Z.of_nat (length (concat incoming)))%Z
    then Normal None
    else match failure with
         | None => Normal (Some (chunks ++ incoming))
         | Some e => Throw e
         end.
Proof.
  induction incoming as [|c incoming IH]; intros chunks size Hsize; simpl.
  - rewrite app_nil_r. destruct (Z.ltb_spec 10000000 (size + Z.of_nat 0)); [lia | reflexivity].
  - rewrite length_app.
    destruct (Z.ltb_spec 10000000 (size + Z.of_nat (length c))) as [Hc|Hc].
    + destruct (Z.ltb_spec 10000000
        (size + Z.of_nat (length c + length (concat incoming)))); [reflexivity | lia].
    + rewrite IH by assumption. rewrite <- app_assoc. simpl.
      now replace (size + Z.of_nat (length c) + Z.of_nat (length (concat incoming)))%Z
        with (size + Z.of_nat (length c + length (concat incoming)))%Z by lia.
Qed.

(** [search(await embed(body))]. *)
Definition pipeline (sharp_raw : Buffer -> completion Buffer) (body : Buffer)
  : M (list RankedResult) :=
  query ← embed sharp_raw body; search query None.

Lemma read_only_pipeline sharp_raw body : read_only (pipeline sharp_raw body).
Proof.
  apply read_only_bind; [apply read_only_embed | intros query; apply read_only_search].
Qed.

(** The outcome of [POST /search]. *)
Lemma handler_post_search sharp_raw path_join req g :
  method req = "POST"%string -> url req = "/search"%string ->
  handler sharp_raw path_join req g =
    if (10000000 <? Z.of_nat (length (concat (body_chunks req))))%Z
    then (Normal (end_with (Text "Too large") (set_statusCode 413 (cors req new_response))),
          g)
    else
      match body_error req with
      | Some e => (Throw e, g)
      | None =>
          (Normal
             match fst (pipeline sharp_raw (concat (body_chunks req)) g) with
             | Normal results =>
                 end_with (ResultsJson results)
                   (setHeader "Content-Type" "application/json" (cors req new_response))
             | Throw e => end_with (ErrorJson e) (set_statusCode 500 (cors req new_response))
             end, g)
      end.
Proof.
  intros Hm Hu. unfold handler. rewrite Hm, Hu.
  cbn [String.eqb Ascii.eqb Bool.eqb andb].
  unfold mbind at 1, M_bind at 1, bind at 1, lift.
  rewrite read_body_total by lia. rewrite Z.add_0_l, app_nil_l.
  destruct (_ <? _)%Z; [reflexivity|].
  destruct (body_error req) as [e|]; [reflexivity|].
  pose proof (read_only_pipeline sharp_raw (concat (body_chunks req)) g) as Hg.
  unfold try_catch, pipeline in *. unfold mbind, M_bind, bind in *.
  destruct (embed sharp_raw (concat (body_chunks req)) g) as [[query|e] g1];
    [|simpl in *; now subst g1].
  destruct (search query None g1) as [[results|e] g2]; simpl in *; now subst g2.
Qed.

(** Every response carries the headers of lines 73-76; only
    [Content-Type] is added to them. *)
Lemma handler_headers sharp_raw path_join req g res g' name :
  handler sharp_raw path_join req g = (Normal res, g') ->
  name <> "Content-Type"%string ->
  getHeader name (headers res) = getHeader name (headers (cors req new_response)).
Proof.
  intros H Hname. unfold handler in H.
  destruct (_ =? _)%string; [injection H as <- _; reflexivity|].
  route_in H;
    [injection H as <- _; simpl; now apply getHeader_set_header_ne|].
  route_in H.
  { unfold mbind, M_bind, bind in H. destruct (get_meta g) as [[m|e] g1]; [|discriminate].
    injection H as <- _. reflexivity. }
  route_in H; [|injection H as <- _; reflexivity].
  unfold mbind at 1, M_bind at 1, bind at 1, lift in H.
  destruct (read_body _ _ _ _) as [[chunks|]|e]; [|injection H as <- _; reflexivity|discriminate].
  unfold try_catch, mbind, M_bind, bind in H.
  destruct (embed _ _ _) as [[query|e] g1]; [|injection H as <- _; reflexivity].
  destruct (search _ _ _) as [[results|e] g2]; injection H as <- _;
    [simpl; now apply getHeader_set_header_ne | reflexivity].
Qed.

(** X7. The handler sets [Access-Control-Allow-Origin] exactly when the
    request's origin begins with one of the three allowed origins, and
    then echoes the whole origin: an origin that only extends an allowed
    one, such as a longer host name, is allowed too. *)
Theorem cors_allows_prefix sharp_raw path_join req g res g' o :
  handler sharp_raw path_join req g = (Normal res, g') ->
  getHeader "Access-Control-Allow-Origin" (headers res) = Some o <->
  headers_origin req = Some o /\
  exists a t, a ∈ ALLOWED /\ o = (a ++ t)%string.
Proof.
  intros H. rewrite (handler_headers _ _ _ _ _ _ _ H) by discriminate.
  rewrite cors_allow_origin.
  destruct (existsb _ _) eqn:Hall.
  - apply existsb_exists in Hall as (a & Ha & Hpre).
    apply prefix_app in Hpre as [t Ht].
    assert (Hor : headers_origin req = Some (or_empty (headers_origin req))).
    { destruct (headers_origin req) as [s|]; [reflexivity|]. simpl in Ht.
      repeat (destruct Ha as [<-|Ha]; [discriminate|]). destruct Ha. }
    split.
    + intros [= <-]. split; [exact Hor|]. exists a, t.
      split; [now apply list_elem_of_In | exact Ht].
    + intros [Ho _]. rewrite Hor in Ho. congruence.
  - split; [discriminate|]. intros [Ho (a & t & Ha & Ht)].
    assert (existsb (fun a => startsWith (or_empty (headers_origin req)) a) ALLOWED = true)
      as Hyes; [|congruence].
    apply existsb_exists. exists a. split; [now apply list_elem_of_In|].
    apply prefix_app. exists t. now rewrite Ho.
Qed.

(** X8. A request is answered with 404 exactly when it is none of
    [OPTIONS] (any URL), [GET /], [GET /health] and [POST /search], the
    method and the URL compared as whole strings; the body is then
    "Not found". *)
Theorem not_found_iff sharp_raw path_join req g res g' :
  handler sharp_raw path_join req g = (Normal res, g') ->
  (statusCode res = 404%Z <->
   method req <> "OPTIONS"%string /\
   ~ (method req = "GET"%string /\ (url req = "/"%string \/ url req = "/health"%string)) /\
   ~ (method req = "POST"%string /\ url req = "/search"%string)) /\
  (statusCode res = 404%Z -> sent res = Text "Not found").
Proof.
  intros H. unfold handler in H.
  destruct (String.eqb_spec (method req) "OPTIONS") as [Ho|Ho].
  { unfold ret in H; injection H as <- _. status. split; [|discriminate]. split; [discriminate | tauto]. }
  destruct (String.eqb_spec (method req) "GET") as [Hg|Hg].
  { destruct (String.eqb_spec (url req) "/") as [Hu|Hu]; cbn [andb] in H.
    { unfold ret in H; injection H as <- _. status. split; [|discriminate]. split; [discriminate | tauto]. }
    destruct (String.eqb_spec (url req) "/health") as [Hh|Hh]; cbn [andb] in H.
    { unfold mbind, M_bind, bind in H. destruct (get_meta g) as [[m|e] g1]; [|discriminate].
      unfold ret in H; injection H as <- _. status. split; [|discriminate]. split; [discriminate | tauto]. }
    rewrite Hg in H. cbn [String.eqb Ascii.eqb Bool.eqb andb] in H.
    unfold ret in H; injection H as <- _. status. split; [|reflexivity]. split; [intros _|reflexivity].
    split; [assumption|]. split; [tauto|]. rewrite Hg. intros [[=] _]. }
  cbn [andb] in H.
  destruct (String.eqb_spec (method req) "POST") as [Hp|Hp]; cbn [andb] in H.
  { destruct (String.eqb_spec (url req) "/search") as [Hs|Hs].
    { unfold mbind at 1, M_bind at 1, bind at 1, lift in H.
      destruct (read_body _ _ _ _) as [[chunks|]|e]; [| |discriminate].
      - unfold try_catch, mbind, M_bind, bind in H.
        destruct (embed _ _ _) as [[query|e] g1];
          [destruct (search _ _ _) as [[results|e] g2]|];
          unfold ret in H; injection H as <- _; status; (split; [|discriminate]);
          (split; [discriminate | tauto]).
      - unfold ret in H; injection H as <- _. status. split; [|discriminate]. split; [discriminate | tauto]. }
    unfold ret in H; injection H as <- _. status. split; [|reflexivity]. split; [intros _|reflexivity].
    split; [assumption|]. split; [tauto|]. tauto. }
  unfold ret in H; injection H as <- _. status. split; [|reflexivity]. split; [intros _|reflexivity].
  split; [assumption|]. split; tauto.
Qed.

(** X9. A [POST /search] whose chunks add up to more than 10,000,000
    bytes is answered with 413 and "Too large", whichever chunk crosses
    the limit and even if the request fails afterwards; neither the image
    decoder nor the globals play a part in it.  For a body read to its
    end, the answer is 413 exactly when the chunks add up to more than
    10,000,000 bytes. *)
Theorem post_search_size_limit sharp_raw path_join req g :
  method req = "POST"%string -> url req = "/search"%string ->
  ((10000000 < Z.of_nat (length (concat (body_chunks req))))%Z ->
   handler sharp_raw path_join req g
   = (Normal (end_with (Text "Too large") (set_statusCode 413 (cors req new_response))), g)) /\
  (body_error req = None ->
   exists res,
     handler sharp_raw path_join req g = (Normal res, g) /\
     (statusCode res = 413%Z
      <-> (10000000 < Z.of_nat (length (concat (body_chunks req))))%Z) /\
     (statusCode res = 413%Z ->
      res = end_with (Text "Too large") (set_statusCode 413 (cors req new_response)))).
Proof.
  intros Hm Hu. rewrite handler_post_search by assumption.
  destruct (Z.ltb_spec 10000000 (Z.of_nat (length (concat (body_chunks req))))) as [Hl|Hl].
  - split; [reflexivity|]. intros _. eexists. split; [reflexivity|].
    status. split; [|reflexivity]. split; [intros _; exact Hl | reflexivity].
  - split; [lia|]. intros ->. eexists. split; [reflexivity|].
    destruct (fst _) as [results|e]; status; (split; [|discriminate]);
      (split; [discriminate | lia]).
Qed.

(** X10. A [POST /search] within the size limit whose body is read to
    its end is always answered, and the globals stay as they are: an
    exception of [embed] (the image decoder, the model, a missing session
    or output) or of [search] gives 500 with that exception as the error;
    only when both return is the answer 200 with the results of [search]
    for the default [topK], as [application/json].  When the request
    fails before its end, the loop of line 87 throws outside the [try]
    of line 88: the handler throws that exception and sends nothing. *)
Theorem post_search_reports_exceptions sharp_raw path_join req g :
  method req = "POST"%string -> url req = "/search"%string ->
  (Z.of_nat (length (concat (body_chunks req))) <= 10000000)%Z ->
  match body_error req with
  | Some failure => handler sharp_raw path_join req g = (Throw failure, g)
  | None =>
      exists res,
        handler sharp_raw path_join req g = (Normal res, g) /\
        match embed sharp_raw (concat (body_chunks req)) g with
        | (Throw e, _) => statusCode res = 500%Z /\ sent res = ErrorJson e
        | (Normal query, _) =>
            match search query None g with
            | (Throw e, _) => statusCode res = 500%Z /\ sent res = ErrorJson e
            | (Normal results, _) =>
                statusCode res = 200%Z /\ sent res = ResultsJson results /\
                getHeader "Content-Type" (headers res) = Some "application/json"%string
            end
        end
  end.
Proof.
  intros Hm Hu Hsize. rewrite handler_post_search by assumption.
  destruct (Z.ltb_spec 10000000 (Z.of_nat (length (concat (body_chunks req))))); [lia|].
  destruct (body_error req) as [failure|]; [reflexivity|].
  eexists. split; [reflexivity|].
  unfold pipeline, mbind, M_bind, bind.
  pose proof (read_only_embed sharp_raw (concat (body_chunks req)) g) as Hg.
  destruct (embed _ _ _) as [[query|e] g1]; simpl in Hg; subst g1;
    [|cbn [fst]; status; now split].
  destruct (search query None g) as [[results|e] g2]; cbn [fst]; status; [|now split].
  split; [reflexivity|]. split; [reflexivity|]. apply getHeader_set_header_eq.
Qed.

(** X11. On a server that is listening, a [POST /search] within the size
    limit, read to its end, whose image [embed] turns into a query is
    answered with 200 and exactly [min 20 n] results for the [n] rows of
    the catalog: the handler always searches with the default [topK]. *)
Theorem post_search_top_20 sharp_raw path_join files req g query :
  startup files = Listening g ->
  method req = "POST"%string -> url req = "/search"%string ->
  (Z.of_nat (length (concat (body_chunks req))) <= 10000000)%Z ->
  body_error req = None ->
  fst (embed sharp_raw (concat (body_chunks req)) g) = Normal query ->
  exists res results,
    handler sharp_raw path_join req g = (Normal res, g) /\
    statusCode res = 200%Z /\
    sent res = ResultsJson results /\
    fst (search query (Some 20%Z) g) = Normal results /\
    length results = Nat.min 20 (length (vs_meta_json files)).
Proof.
  intros Hstart Hm Hu Hsize Hend Hq. rewrite startup_cases in Hstart.
  destruct (_ <? _); [discriminate|]. injection Hstart as <-.
  rewrite handler_post_search by assumption. rewrite Hend.
  destruct (Z.ltb_spec 10000000 (Z.of_nat (length (concat (body_chunks req))))); [lia|].
  unfold pipeline, mbind, M_bind, bind.
  pose proof (read_only_embed sharp_raw (concat (body_chunks req)) (loaded files)) as Hg.
  destruct (embed _ _ _) as [[q|e] g1]; simpl in Hg, Hq; [|discriminate].
  subst g1. injection Hq as ->.
  erewrite !search_loaded by reflexivity. cbn [fst].
  eexists _, _. split; [reflexivity|]. status.
  split; [reflexivity|]. split; [reflexivity|].
  split; [reflexivity|].
  change (default 20%Z None) with 20%Z.
  rewrite length_map, ranked_length by lia. rewrite scores_of_length. reflexivity.
Qed.

(** X12. On a server that is listening, [GET /health] is answered with
    200 and [{ok: true, products: n}] for the [n] rows of the metadata
    file read at startup, whatever the blob held beyond its size. *)
Theorem health_reports_catalog_size sharp_raw path_join files req g :
  startup files = Listening g ->
  method req = "GET"%string -> url req = "/health"%string ->
  exists res,
    handler sharp_raw path_join req g = (Normal res, g) /\
    statusCode res = 200%Z /\
    sent res = HealthJson (length (vs_meta_json files)).
Proof.
  intros Hstart Hm Hu. rewrite startup_cases in Hstart.
  destruct (_ <? _); [discriminate|]. injection Hstart as <-.
  unfold handler. rewrite Hm, Hu. cbn [String.eqb Ascii.eqb Bool.eqb andb].
  eexists. split; [reflexivity|]. status. now split.
Qed.

(** X13. No request, whatever its method, URL, origin and body, and
    whatever the image decoder and the model do with it, changes the
    session, the metadata or the matrix. *)
Theorem handler_keeps_globals sharp_raw path_join req g :
  snd (handler sharp_raw path_join req g) = g.
Proof. apply read_only_handler. Qed.

(** X16. Every response of the handler, the errors 404, 413 and 500
    included, carries [Access-Control-Allow-Methods: POST,OPTIONS] and
    [Access-Control-Allow-Headers: Content-Type], whatever the origin. *)
Theorem every_response_has_cors_headers sharp_raw path_join req g res g' :
  handler sharp_raw path_join req g = (Normal res, g') ->
  getHeader "Access-Control-Allow-Methods" (headers res) = Some "POST,OPTIONS"%string /\
  getHeader "Access-Control-Allow-Headers" (headers res) = Some "Content-Type"%string.
Proof.
  intros H. rewrite !(handler_headers _ _ _ _ _ _ _ H) by discriminate.
  unfold cors. destruct (existsb _ _); split; reflexivity.
Qed.

(** ** Provisioning *)

Section ProvisionProperties.
Context {Disk : Type}.
Variable existsSync : Disk -> string -> bool.
Variable execSync : string -> Disk -> completion unit * Disk.
Variable path_join : string -> string.

Lemma downloadIfMissing_exists filename url p :
  existsSync (disk p) (path_join filename) = true ->
  downloadIfMissing existsSync execSync path_join filename url p = (Normal tt, p).
Proof. intros H. unfold downloadIfMissing. now rewrite H. Qed.

Lemma downloadIfMissing_no_url filename p :
  existsSync (disk p) (path_join filename) = false ->
  downloadIfMissing existsSync execSync path_join filename EmptyString p
  = (Throw (Error (filename ++ " missing and no URL configured")%string), p).
Proof. intros H. unfold downloadIfMissing. now rewrite H. Qed.

(** X14. When the three data files exist, startup runs no command and
    leaves the file system alone, whatever URLs are configured: the
    server is started from the files as they are. *)
Theorem existing_files_not_downloaded env files p :
  existsSync (disk p) (path_join "model.onnx") = true ->
  existsSync (disk p) (path_join "vs-embeddings.bin") = true ->
  existsSync (disk p) (path_join "vs-meta.json") = true ->
  main existsSync execSync path_join env files p = (startup files, p).
Proof.
  intros H1 H2 H3. unfold main, FILES, provision.
  now rewrite !downloadIfMissing_exists by assumption.
Qed.

(** X15. With no download URL configured (each variable unset or empty),
    startup runs no command: if a data file is missing, the server never
    listens and the error names the first missing file in the order
    model.onnx, vs-embeddings.bin, vs-meta.json; otherwise the server is
    started from the files. *)
Theorem missing_file_without_url env files p :
  or_empty (MODEL_URL env) = EmptyString ->
  or_empty (EMBEDDINGS_URL env) = EmptyString ->
  or_empty (META_URL env) = EmptyString ->
  main existsSync execSync path_join env files p =
    match find (fun f => negb (existsSync (disk p) (path_join f)))
            ["model.onnx"; "vs-embeddings.bin"; "vs-meta.json"]%string with
    | Some f => (NotStarted (Error (f ++ " missing and no URL configured")%string), p)
    | None => (startup files, p)
    end.
Proof.
  intros H1 H2 H3. unfold main, FILES, provision. rewrite H1, H2, H3.
  cbn [find].
  destruct (existsSync (disk p) (path_join "model.onnx")) eqn:E1; cbn [negb];
    [rewrite downloadIfMissing_exists by assumption
    |now rewrite downloadIfMissing_no_url by assumption].
  destruct (existsSync (disk p) (path_join "vs-embeddings.bin")) eqn:E2; cbn [negb];
    [rewrite downloadIfMissing_exists by assumption
    |now rewrite downloadIfMissing_no_url by assumption].
  destruct (existsSync (disk p) (path_join "vs-meta.json")) eqn:E3; cbn [negb];
    [rewrite downloadIfMissing_exists by assumption
    |now rewrite downloadIfMissing_no_url by assumption].
  reflexivity.
Qed.




End ProvisionProperties.

(** * Examples *)

Lemma example_catalog topK :
  startup example_files = Listening (loaded example_files) /\
  scores_of unit_query
    (loaded_embeddings (vs_embeddings_bin example_files) (length (vs_meta_json example_files)))
    (length (vs_meta_json example_files)) = [1; 0; 0.60009765625]%float /\
  search unit_query topK (loaded example_files)
  = (Normal (map (result (vs_meta_json example_files) [1; 0; 0.60009765625]%float)
               (ranked [1; 0; 0.60009765625]%float (default 20%Z topK))),
     loaded example_files).
Proof. apply search_catalog; vm_compute; reflexivity. Qed.

Lemma nan_catalog topK :
  startup nan_files = Listening (loaded nan_files) /\
  scores_of unit_query
    (loaded_embeddings (vs_embeddings_bin nan_files) (length (vs_meta_json nan_files)))
    (length (vs_meta_json nan_files)) = [nan; 1]%float /\
  search unit_query topK (loaded nan_files)
  = (Normal (map (result (vs_meta_json nan_files) [nan; 1]%float)
               (ranked [nan; 1]%float (default 20%Z topK))),
     loaded nan_files).
Proof. apply search_catalog; vm_compute; reflexivity. Qed.

Lemma tie_catalog topK :
  startup tie_files = Listening (loaded tie_files) /\
  scores_of unit_query
    (loaded_embeddings (vs_embeddings_bin tie_files) (length (vs_meta_json tie_files)))
    (length (vs_meta_json tie_files)) = [5; 4; 0; nan; 1; 3; 1]%float /\
  search unit_query topK (loaded tie_files)
  = (Normal (map (result (vs_meta_json tie_files) [5; 4; 0; nan; 1; 3; 1]%float)
               (ranked [5; 4; 0; nan; 1; 3; 1]%float (default 20%Z topK))),
     loaded tie_files).
Proof. apply search_catalog; vm_compute; reflexivity. Qed.

Lemma tied_catalog topK :
  startup tied_files = Listening (loaded tied_files) /\
  scores_of unit_query
    (loaded_embeddings (vs_embeddings_bin tied_files) (length (vs_meta_json tied_files)))
    (length (vs_meta_json tied_files)) = [0.5; 1; 1]%float /\
  search unit_query topK (loaded tied_files)
  = (Normal (map (result (vs_meta_json tied_files) [0.5; 1; 1]%float)
               (ranked [0.5; 1; 1]%float (default 20%Z topK))),
     loaded tied_files).
Proof. apply search_catalog; vm_compute; reflexivity. Qed.

(** The three-product catalog: the query A ranks A first with 100.0, then
    C with 60.0, then B with 0.0. *)
Example search_example :
  startup example_files = Listening (loaded example_files) /\
  fst (search unit_query None (loaded example_files))
  = Normal
      [ {| id := Num 1; handle := Str "a"; title := Str "a"; img := Str "a.png";
           score := Str "100.0" |};
        {| id := Num 3; handle := Str "c"; title := Str "c"; img := Str "c.png";
           score := Str "60.0" |};
        {| id := Num 2; handle := Str "b"; title := Str "b"; img := Str "b.png";
           score := Str "0.0" |} ].
Proof.
  destruct (example_catalog None) as [Hstart [_ Hsearch]].
  split; [exact Hstart|]. rewrite Hsearch. cbn [fst]. vm_compute. reflexivity.
Qed.

Lemma search_result_size_witness :
  exists (scores : Float32Array) (order : list nat),
    order ≡ₚ seq 0 (length (vs_meta_json example_files)) /\
    search unit_query (Some 2%Z) (loaded example_files)
      = (Normal (map (result (vs_meta_json example_files) scores)
                   (take (Z.to_nat 2) order)), loaded example_files) /\
    length (map (result (vs_meta_json example_files) scores) (take (Z.to_nat 2) order))
      = Nat.min (Z.to_nat 2) (length (vs_meta_json example_files)).
Proof.
  apply (search_result_size example_files (loaded example_files) unit_query 2);
    [apply (example_catalog None) | lia].
Defined.

Lemma decode_half_value_witness :
  let x := decode_half (half_word 0 15 0) in
  let sign := 1%Q in
  fround x = x /\
  (15%Z = 0%Z -> has_value x (sign * 2 ^ (-14) * (inject_Z 0 / 1024))%Q
                 /\ sign_bit x = false) /\
  (15%Z = 31%Z -> 0%Z = 0%Z -> x = infinity) /\
  (15%Z = 31%Z -> 0%Z <> 0%Z -> x = nan) /\
  ((0 < 15 < 31)%Z -> has_value x (sign * 2 ^ (15 - 15) * (1 + inject_Z 0 / 1024))%Q).
Proof. apply (decode_half_value 0 15 0); lia. Defined.

(** C3, counterexample. A catalog of two products whose first vector holds
    a NaN: the query's scores are NaN and 1, the comparator returns NaN for
    the pair, the sort leaves the rows as they are, and the result shows
    "NaN" before "100.0": the first score is not greater than or equal to
    the second. *)
Lemma nan_score_not_sorted :
  startup nan_files = Listening (loaded nan_files) /\
  fst (search unit_query None (loaded nan_files))
  = Normal
      [ {| id := Num 1; handle := Str "a"; title := Str "a"; img := Str "a.png";
           score := Str "NaN" |};
        {| id := Num 2; handle := Str "b"; title := Str "b"; img := Str "b.png";
           score := Str "100.0" |} ] /\
  (let scores := scores_of unit_query
                   (loaded_embeddings (vs_embeddings_bin nan_files) 2) 2 in
   ranked scores 20 = [0; 1] /\
   Number_isNaN (at_index scores 0) = true /\
   at_index scores 1 = 1%float /\
   (at_index scores 1 <=? at_index scores 0)%float = false).
Proof.
  destruct (nan_catalog None) as [Hstart [Hscores Hsearch]].
  split; [exact Hstart|]. split.
  - rewrite Hsearch. cbn [fst]. vm_compute. reflexivity.
  - assert (Hs : scores_of unit_query
                   (loaded_embeddings (vs_embeddings_bin nan_files) 2) 2 = [nan; 1]%float)
      by exact Hscores.
    cbv zeta. rewrite Hs. vm_compute. repeat split; reflexivity.
Qed.

Lemma search_sorted_by_score_witness :
  let m := vs_meta_json example_files in
  let scores :=
    scores_of unit_query
      (loaded_embeddings (vs_embeddings_bin example_files) (length m)) (length m) in
  exists order : list nat,
    search unit_query None (loaded example_files)
      = (Normal (map (result m scores) order), loaded example_files) /\
    (forall i, score (result m scores i) = Str (toFixed1 (at_index scores i * 100)%float)) /\
    forall p q i j, p < q -> order !! p = Some i -> order !! q = Some j ->
      (at_index scores j <=? at_index scores i)%float = true.
Proof.
  destruct (example_catalog None) as [Hstart [Hscores _]].
  apply (search_sorted_by_score example_files (loaded example_files) unit_query None);
    [exact Hstart | rewrite Hscores; vm_compute; reflexivity].
Defined.

(** C10, counterexample. Seven products with scores 5, 4, 0, NaN, 1, 3 and
    1 for the query: rows 4 and 6 have the same score 1, and row 6 is
    returned before row 4.  The natural run 0..4 is kept (every comparison
    with the NaN of row 3 counts as a tie), row 5 is inserted after row 1,
    and the binary search for row 6 probes rows 2, 1 and 5 only, so it
    never meets row 4. *)
Lemma nan_score_breaks_ties :
  startup tie_files = Listening (loaded tie_files) /\
  (let m := vs_meta_json tie_files in
   let scores := scores_of unit_query
                   (loaded_embeddings (vs_embeddings_bin tie_files) 7) 7 in
   map (at_index scores) [0; 1; 2; 4; 5; 6] = [5; 4; 0; 1; 3; 1]%float /\
   Number_isNaN (at_index scores 3) = true /\
   search unit_query None (loaded tie_files)
   = (Normal (map (result m scores) [0; 1; 5; 6; 2; 3; 4]), loaded tie_files) /\
   (at_index scores 4 =? at_index scores 6)%float = true).
Proof.
  destruct (tie_catalog None) as [Hstart [Hscores Hsearch]].
  split; [exact Hstart|].
  assert (Hs : scores_of unit_query
                 (loaded_embeddings (vs_embeddings_bin tie_files) 7) 7
               = [5; 4; 0; nan; 1; 3; 1]%float) by exact Hscores.
  assert (Hr : ranked [5; 4; 0; nan; 1; 3; 1]%float (default 20%Z None)
               = [0; 1; 5; 6; 2; 3; 4]) by (vm_compute; reflexivity).
  cbv zeta. rewrite Hsearch, Hs, Hr.
  split; [vm_compute; reflexivity|]. split; [vm_compute; reflexivity|].
  split; [reflexivity | vm_compute; reflexivity].
Qed.

(** Rows 1 and 2 tie with score 1 and [topK = 1] cuts between them: the
    row returned is row 1. *)
Lemma tie_cut_by_topK :
  fst (search unit_query (Some 1%Z) (loaded tied_files))
  = Normal [ {| id := Num 1; handle := Str "p1"; title := Str "p1";
                img := Str "p1.png"; score := Str "100.0" |} ].
Proof.
  destruct (tied_catalog (Some 1%Z)) as [_ [_ Hsearch]].
  rewrite Hsearch. cbn [fst]. vm_compute. reflexivity.
Qed.

Lemma search_ties_by_index_witness :
  let m := vs_meta_json tied_files in
  let scores :=
    scores_of unit_query
      (loaded_embeddings (vs_embeddings_bin tied_files) (length m)) (length m) in
  exists order : list nat,
    search unit_query (Some 1%Z) (loaded tied_files)
      = (Normal (map (result m scores) order), loaded tied_files) /\
    (forall p q i j, p < q -> order !! p = Some i -> order !! q = Some j ->
       (at_index scores i =? at_index scores j)%float = true -> i < j) /\
    (forall a b q, a < b ->
       (at_index scores a =? at_index scores b)%float = true ->
       order !! q = Some b ->
       exists p, p < q /\ order !! p = Some a).
Proof.
  destruct (tied_catalog None) as [Hstart [Hscores _]].
  apply (search_ties_by_index tied_files (loaded tied_files) unit_query (Some 1%Z));
    [exact Hstart | rewrite Hscores; vm_compute; reflexivity].
Defined.

(** C7, counterexample. One product and a blob of 1026 bytes, two more
    than [1 * 512 * 2]: startup succeeds and the server listens. *)
Lemma oversized_blob_accepted :
  length (vs_embeddings_bin oversized_files) = 1026 /\
  length (vs_meta_json oversized_files) * 512 * 2 = 1024 /\
  startup oversized_files = Listening (loaded oversized_files).
Proof.
  split; [vm_compute; reflexivity|]. split; [vm_compute; reflexivity|].
  rewrite startup_cases. reflexivity.
Qed.

(** A blob two bytes short stops startup with a RangeError. *)
Example truncated_blob_rejected :
  length (vs_embeddings_bin truncated_files) = 1022 /\
  startup truncated_files = NotStarted RangeError.
Proof. split; [vm_compute; reflexivity|]. rewrite startup_cases. reflexivity. Qed.

(** The globals of a server whose model is [s] and whose catalog is empty. *)
Definition serving (s : InferenceSession) : Globals :=
  {| session := Some s; meta := Some []; embeddings := Some [] |}.

(** C6, counterexample. Two models whose only outputs are named "logits"
    and "hidden": no key is in both result sets, yet [embed] accepts both
    and returns the normalized first value. *)
Lemma any_output_key_accepted :
  embed grey_image [] (serving (constant_model [("logits"%string, vector_tensor unit_query)]))
  = (Normal unit_query,
     serving (constant_model [("logits"%string, vector_tensor unit_query)])) /\
  embed grey_image [] (serving (constant_model [("hidden"%string, vector_tensor unit_query)]))
  = (Normal unit_query,
     serving (constant_model [("hidden"%string, vector_tensor unit_query)])) /\
  (forall key : string, ~ (key ∈ ["logits"%string] /\ key ∈ ["hidden"%string])).
Proof.
  split; [|split].
  - erewrite embed_run; [|reflexivity..].
    vm_compute. reflexivity.
  - erewrite embed_run; [|reflexivity..].
    vm_compute. reflexivity.
  - intros key [H1 H2]. apply list_elem_of_singleton in H1, H2. congruence.
Qed.

Lemma embed_takes_first_output_witness :
  embed grey_image [] (serving (constant_model [("logits"%string, vector_tensor unit_query)]))
  = (Normal (l2_normalize (tensor_data (vector_tensor unit_query))),
     serving (constant_model [("logits"%string, vector_tensor unit_query)])).
Proof.
  apply (embed_takes_first_output grey_image []
    (serving (constant_model [("logits"%string, vector_tensor unit_query)]))
    (replicate (224 * 224 * 3) x80)
    (constant_model [("logits"%string, vector_tensor unit_query)])
    [("logits"%string, vector_tensor unit_query)]); reflexivity.
Defined.

(** C5, counterexample. A model that returns the zero vector: its norm is
    zero, and [embed] returns normally a vector of 512 NaN. *)
Lemma zero_vector_not_rejected :
  is_zero (l2_norm zero_vector) = true /\
  embed grey_image []
    (serving (constant_model [("image_embeds"%string, vector_tensor zero_vector)]))
  = (Normal (replicate 512 nan),
     serving (constant_model [("image_embeds"%string, vector_tensor zero_vector)])).
Proof.
  split; [vm_compute; reflexivity|].
  erewrite embed_run; [|reflexivity..].
  vm_compute. reflexivity.
Qed.

Lemma embed_divides_by_norm_witness :
  let emb := tensor_data (vector_tensor zero_vector) in
  let norm := l2_norm emb in
  exists v : list number,
    embed grey_image []
      (serving (constant_model [("image_embeds"%string, vector_tensor zero_vector)]))
    = (Normal v,
       serving (constant_model [("image_embeds"%string, vector_tensor zero_vector)])) /\
    length v = length emb /\
    (forall i x, emb !! i = Some x -> v !! i = Some (x / norm)%float) /\
    (is_zero norm = true -> forall y, y ∈ v -> Number_isFinite y = false) /\
    (Number_isNaN norm = true -> forall y, y ∈ v -> Number_isNaN y = true) /\
    (Number_isFinite norm = false -> Number_isNaN norm = false ->
       forall y, y ∈ v -> is_zero y = true \/ Number_isNaN y = true).
Proof.
  apply (embed_divides_by_norm grey_image []
    (serving (constant_model [("image_embeds"%string, vector_tensor zero_vector)]))
    (replicate (224 * 224 * 3) x80)
    (constant_model [("image_embeds"%string, vector_tensor zero_vector)])
    "image_embeds"%string (vector_tensor zero_vector) []); reflexivity.
Defined.

Lemma tensor_layout_witness :
  MEAN = [0.48145466; 0.4578275; 0.40821073]%float /\
  STD = [0.26862954; 0.26130258; 0.27577711]%float /\
  length (normalize_pixels pixels (replicate (224 * 224 * 3) x80)) = 3 * 224 * 224 /\
  normalize_pixels pixels (replicate (224 * 224 * 3) x80) !! (1 * 224 * 224 + 2 * 224 + 3)
  = Some (fround ((of_Z (byte_val x80) / 255 - at_index MEAN 1) / at_index STD 1)%float).
Proof.
  apply (tensor_layout (replicate (224 * 224 * 3) x80) 1 2 3 x80);
    [apply length_replicate | lia | lia | lia | vm_compute; reflexivity].
Defined.

(** ** Examples: the catalog and the scores *)

Lemma init_stores_decoded_words_witness :
  exists emb : Float32Array,
    embeddings (loaded example_files) = Some emb /\
    length emb = length (vs_meta_json example_files) * 512 /\
    forall i, i < length (vs_meta_json example_files) * 512 ->
      exists first last,
        vs_embeddings_bin example_files !! (i * 2) = Some first /\
        vs_embeddings_bin example_files !! (i * 2 + 1) = Some last /\
        emb !! i = Some (decode_half (byte_val first + byte_val last * 2 ^ 8)).
Proof.
  apply (init_stores_decoded_words example_files (loaded example_files)).
  apply (example_catalog None).
Defined.

Lemma search_scores_rows_witness :
  exists (emb scores : Float32Array) (order : list nat),
    embeddings (loaded example_files) = Some emb /\
    scores = map (fun i => fround (dot unit_query (row_of emb i)))
               (seq 0 (length (vs_meta_json example_files))) /\
    order ≡ₚ seq 0 (length (vs_meta_json example_files)) /\
    search unit_query None (loaded example_files)
    = (Normal (map (result (vs_meta_json example_files) scores)
                 (slice0 order (default 20%Z None))), loaded example_files) /\
    forall i, score (result (vs_meta_json example_files) scores i)
              = Str (toFixed1 (at_index scores i * 100)%float).
Proof.
  apply (search_scores_rows example_files (loaded example_files) unit_query None);
    [apply (example_catalog None) | apply Nat.leb_le; reflexivity].
Defined.

Lemma search_reads_512_entries_witness :
  search (unit_query ++ [1; 2]%float) None (loaded example_files)
  = search (take 512 (unit_query ++ [1; 2]%float)) None (loaded example_files).
Proof.
  apply (search_reads_512_entries example_files (loaded example_files)
           (unit_query ++ [1; 2]%float) None);
    [apply (example_catalog None) | apply Nat.leb_le; reflexivity].
Defined.

Lemma search_short_query_witness :
  let m := vs_meta_json example_files in
  let scores := replicate (length m) nan in
  search [1%float] None (loaded example_files)
  = (Normal (map (result m scores) (slice0 (seq 0 (length m)) (default 20%Z None))),
     loaded example_files) /\
  forall i, score (result m scores i) = Str "NaN".
Proof.
  apply (search_short_query example_files (loaded example_files) [1%float] None);
    [apply (example_catalog None) | apply Nat.ltb_lt; reflexivity].
Defined.

Lemma search_negative_topK_witness :
  let n := length (vs_meta_json example_files) in
  exists ranking : list RankedResult,
    search unit_query (Some (Z.of_nat n)) (loaded example_files)
    = (Normal ranking, loaded example_files) /\
    length ranking = n /\
    search unit_query (Some (-1)%Z) (loaded example_files)
    = (Normal (take (n - Z.to_nat (- -1)) ranking), loaded example_files).
Proof.
  apply (search_negative_topK example_files (loaded example_files) unit_query (-1));
    [apply (example_catalog None) | lia].
Defined.

(** The raw data of a 224 x 224 image with one channel. *)
Definition one_channel : Buffer := replicate (224 * 224) x80.

Lemma tensor_missing_byte_witness :
  length (normalize_pixels pixels one_channel) = 3 * 224 * 224 /\
  normalize_pixels pixels one_channel !! (1 * 224 * 224 + 200 * 224 + 3) = Some nan.
Proof.
  apply (tensor_missing_byte one_channel 1 200 3); [lia | lia | lia |].
  unfold one_channel. rewrite length_replicate. apply Nat.leb_le. reflexivity.
Defined.

(** ** Examples: requests *)

Definition app_path (filename : string) : string := ("/app/" ++ filename)%string.

(** A preflight request from a host whose name only begins like an
    allowed one. *)
Definition preflight : IncomingMessage :=
  {| headers_origin := Some "https://nigooffice.com.evil.example"%string;
     method := "OPTIONS"; url := "/search"; body_chunks := []; body_error := None |}.

Definition preflight_response : ServerResponse :=
  {| statusCode := 200;
     headers :=
       [("Access-Control-Allow-Origin", "https://nigooffice.com.evil.example");
        ("Access-Control-Allow-Methods", "POST,OPTIONS");
        ("Access-Control-Allow-Headers", "Content-Type")]%string;
     sent := NoBody |}.

Lemma cors_allows_prefix_witness :
  getHeader "Access-Control-Allow-Origin" (headers preflight_response)
  = Some "https://nigooffice.com.evil.example"%string <->
  headers_origin preflight = Some "https://nigooffice.com.evil.example"%string /\
  exists a t, a ∈ ALLOWED /\ "https://nigooffice.com.evil.example"%string = (a ++ t)%string.
Proof.
  apply (cors_allows_prefix grey_image app_path preflight undefined_globals
           preflight_response undefined_globals).
  reflexivity.
Defined.

Lemma every_response_has_cors_headers_witness :
  getHeader "Access-Control-Allow-Methods" (headers preflight_response)
  = Some "POST,OPTIONS"%string /\
  getHeader "Access-Control-Allow-Headers" (headers preflight_response)
  = Some "Content-Type"%string.
Proof.
  apply (every_response_has_cors_headers grey_image app_path preflight undefined_globals
           preflight_response undefined_globals).
  reflexivity.
Defined.

(** [GET /health?verbose]: the URL is compared as a whole. *)
Definition health_with_query : IncomingMessage :=
  {| headers_origin := None; method := "GET"; url := "/health?verbose";
     body_chunks := []; body_error := None |}.

Definition not_found_response : ServerResponse :=
  {| statusCode := 404;
     headers :=
       [("Access-Control-Allow-Methods", "POST,OPTIONS");
        ("Access-Control-Allow-Headers", "Content-Type")]%string;
     sent := Text "Not found" |}.

Lemma not_found_iff_witness :
  (statusCode not_found_response = 404%Z <->
   method health_with_query <> "OPTIONS"%string /\
   ~ (method health_with_query = "GET"%string /\
      (url health_with_query = "/"%string \/ url health_with_query = "/health"%string)) /\
   ~ (method health_with_query = "POST"%string /\ url health_with_query = "/search"%string)) /\
  (statusCode not_found_response = 404%Z -> sent not_found_response = Text "Not found").
Proof.
  apply (not_found_iff grey_image app_path health_with_query undefined_globals
           not_found_response undefined_globals).
  reflexivity.
Defined.

(** A search request whose body arrives in two chunks. *)
Definition upload : IncomingMessage :=
  {| headers_origin := Some "https://www.nigooffice.com"%string;
     method := "POST"; url := "/search"; body_chunks := [[x89; x50]; [x4e]];
     body_error := None |}.

Lemma post_search_size_limit_witness :
  ((10000000 < Z.of_nat (length (concat (body_chunks upload))))%Z ->
   handler grey_image app_path upload undefined_globals
   = (Normal (end_with (Text "Too large") (set_statusCode 413 (cors upload new_response))),
      undefined_globals)) /\
  (body_error upload = None ->
   exists res,
     handler grey_image app_path upload undefined_globals = (Normal res, undefined_globals) /\
     (statusCode res = 413%Z
      <-> (10000000 < Z.of_nat (length (concat (body_chunks upload))))%Z) /\
     (statusCode res = 413%Z ->
      res = end_with (Text "Too large") (set_statusCode 413 (cors upload new_response)))).
Proof.
  apply (post_search_size_limit grey_image app_path upload undefined_globals); reflexivity.
Defined.

(** The same upload, aborted after its two chunks. *)
Definition aborted_upload : IncomingMessage :=
  {| headers_origin := Some "https://www.nigooffice.com"%string;
     method := "POST"; url := "/search"; body_chunks := [[x89; x50]; [x4e]];
     body_error := Some (Error "aborted") |}.

Lemma aborted_upload_unanswered :
  handler grey_image app_path aborted_upload (loaded example_files)
  = (Throw (Error "aborted"), loaded example_files).
Proof.
  rewrite handler_post_search by reflexivity. reflexivity.
Qed.

Lemma post_search_reports_exceptions_witness :
  match body_error upload with
  | Some failure =>
      handler grey_image app_path upload undefined_globals = (Throw failure, undefined_globals)
  | None =>
      exists res,
        handler grey_image app_path upload undefined_globals
        = (Normal res, undefined_globals) /\
        match embed grey_image (concat (body_chunks upload)) undefined_globals with
        | (Throw e, _) => statusCode res = 500%Z /\ sent res = ErrorJson e
        | (Normal query, _) =>
            match search query None undefined_globals with
            | (Throw e, _) => statusCode res = 500%Z /\ sent res = ErrorJson e
            | (Normal results, _) =>
                statusCode res = 200%Z /\ sent res = ResultsJson results /\
                getHeader "Content-Type" (headers res) = Some "application/json"%string
            end
        end
  end.
Proof.
  apply (post_search_reports_exceptions grey_image app_path upload undefined_globals);
    [reflexivity | reflexivity | simpl; lia].
Defined.

Lemma post_search_top_20_witness :
  exists res results,
    handler grey_image app_path upload (loaded example_files)
    = (Normal res, loaded example_files) /\
    statusCode res = 200%Z /\
    sent res = ResultsJson results /\
    fst (search (l2_normalize unit_query) (Some 20%Z) (loaded example_files))
    = Normal results /\
    length results = Nat.min 20 (length (vs_meta_json example_files)).
Proof.
  apply (post_search_top_20 grey_image app_path example_files upload
           (loaded example_files) (l2_normalize unit_query));
    [apply (example_catalog None) | reflexivity | reflexivity | simpl; lia | reflexivity |].
  erewrite embed_run; [|reflexivity..]. reflexivity.
Defined.

Definition health : IncomingMessage :=
  {| headers_origin := None; method := "GET"; url := "/health"; body_chunks := [];
     body_error := None |}.

Lemma health_reports_catalog_size_witness :
  exists res,
    handler grey_image app_path health (loaded example_files)
    = (Normal res, loaded example_files) /\
    statusCode res = 200%Z /\
    sent res = HealthJson (length (vs_meta_json example_files)).
Proof.
  apply (health_reports_catalog_size grey_image app_path example_files health
           (loaded example_files));
    [apply (example_catalog None) | reflexivity | reflexivity].
Defined.

(** ** Examples: provisioning *)

(** A file system as the list of the paths that exist, and a shell in
    which every command fails. *)
Definition has_file (d : list string) (fp : string) : bool :=
  existsb (String.eqb fp) d.

Definition failing_shell (command : string) (d : list string)
  : completion unit * list string :=
  (Throw (Error "Command failed"), d).

Definition all_files : Process :=
  {| disk := ["/app/model.onnx"; "/app/vs-meta.json"; "/app/vs-embeddings.bin"]%string;
     commands := [] |}.

Definition no_urls : Env :=
  {| MODEL_URL := None; EMBEDDINGS_URL := Some EmptyString; META_URL := None |}.

Definition some_urls : Env :=
  {| MODEL_URL := Some "https://example.org/model.onnx"%string;
     EMBEDDINGS_URL := None; META_URL := None |}.

Lemma existing_files_not_downloaded_witness :
  main has_file failing_shell app_path some_urls example_files all_files
  = (startup example_files, all_files).
Proof.
  apply (existing_files_not_downloaded has_file failing_shell app_path
           some_urls example_files all_files); reflexivity.
Defined.

(** Only the model is in place. *)
Definition model_only : Process :=
  {| disk := ["/app/model.onnx"%string]; commands := [] |}.

Lemma missing_file_without_url_witness :
  main has_file failing_shell app_path no_urls example_files model_only =
    match find (fun f => negb (has_file (disk model_only) (app_path f)))
            ["model.onnx"; "vs-embeddings.bin"; "vs-meta.json"]%string with
    | Some f => (NotStarted (Error (f ++ " missing and no URL configured")%string), model_only)
    | None => (startup example_files, model_only)
    end.
Proof.
  apply (missing_file_without_url has_file failing_shell app_path
           no_urls example_files model_only); reflexivity.
Defined.
